(** * gocrawl: the per-host worker (worker.go)

    A shallow embedding of [worker.go]: the worker's fields, the extender
    callbacks it drives, and its methods [run], [isAllowedPerRobotsPolicies],
    [requestUrl], [requestRobotsTxt], [getRobotsTxtGroup], [setCrawlDelay],
    [fetchUrl], [sendResponse], [visitUrl] and [processLinks].

    The worker is sequential code that calls back into an [Extender], sends
    on a channel and sleeps on timers.  It is embedded in a state-and-output
    monad: the state holds the worker's mutable fields, the state of the
    outside world and a clock; the output is the list of observable events
    (callbacks invoked, responses pushed, bodies closed) in program order. *)

From Stdlib Require Import ZArith NArith List String Bool Lia.
Import ListNotations.
Local Open Scope string_scope.
Local Open Scope list_scope.
Local Open Scope Z_scope.

Set Implicit Arguments.

(** ** Plain data *)

(** A Go [error], kept as its message ([e.Error()]). *)
Definition go_error := string.

Definition bytes := list Byte.byte.

(** [time.Time] and [time.Duration], both in nanoseconds. *)
Definition Time := Z.
Definition Duration := Z.

Definition minDuration : Duration := - 2 ^ 63.
Definition maxDuration : Duration := 2 ^ 63 - 1.

(** [t.Sub(u)]: the duration [t - u], saturated to the range of
    [time.Duration]. *)
Definition time_Sub (t u : Time) : Duration :=
  Z.max minDuration (Z.min maxDuration (t - u)).

(** The channel returned by [time.After(d)], called at time [now], delivers
    at [now + d]; it is represented by that instant. *)
Definition time_After (now : Time) (d : Duration) : Time := now + d.

(** [url.URL], the fields the worker and its collaborators look at. *)
Record URL := mkURL {
  Scheme : string;
  Host : string;
  Path : string;
  RawQuery : string;
  Fragment : string
}.

(** A response body: the bytes a reader obtains from it and the error, if
    any, that reading ends with. *)
Record Body := mkBody {
  body_data : bytes;
  body_err : option go_error
}.

(** [ioutil.ReadAll(body)]. *)
Definition ioutil_ReadAll (b : Body) : bytes * option go_error :=
  (body_data b, body_err b).

(** [ioutil.NopCloser(bytes.NewBuffer(b))]. *)
Definition rewound (b : bytes) : Body := mkBody b None.

(** [http.Response], with [Request.URL] flattened into [Request_URL]. *)
Record Response := mkResponse {
  Status : string;
  StatusCode : Z;
  RespBody : Body;
  Request_URL : URL
}.

Definition with_Body (res : Response) (b : Body) : Response :=
  mkResponse (Status res) (StatusCode res) b (Request_URL res).

(** [workerCommand]: the fields [u] and [head] that [run] reads. *)
Record workerCommand := mkCommand {
  cmd_u : URL;
  cmd_head : bool
}.

(** [workerResponse], in the order of the literal in [sendResponse]:
    host, visited, url, harvested urls, idle death. *)
Record workerResponse := mkWorkerResponse {
  wr_host : string;
  wr_visited : bool;
  wr_u : option URL;
  wr_harvested : list URL;
  wr_idleDeath : bool
}.

(** [FetchInfo], in the order of the literal in [fetchUrl]. *)
Record FetchInfo := mkFetchInfo {
  FIDuration : Duration;
  FIStatusCode : Z;
  FIHeadRequest : bool;
  FIRobotsRequest : bool
}.

(** [DelayInfo], in the order of the literal in [setCrawlDelay]. *)
Record DelayInfo := mkDelayInfo {
  OptsDelay : Duration;
  RobotsDelay : Duration;
  LastDelay : Duration
}.

(** Modelled from the spec: the log levels [LogError], [LogInfo], [LogTrace]
    and [LogIgnored] are declared outside [worker.go]; the worker only
    passes them to its logging sink. *)
Inductive LogFlags := LogError | LogInfo | LogTrace | LogIgnored.

(** Modelled from the spec: the error kinds are declared outside
    [worker.go]; these are the six the worker raises (FetchFailure,
    ParseRobotsFailure, HttpStatusFailure, ReadBodyFailure, ParseBodyFailure,
    ProcessLinksFailure). *)
Inductive CrawlErrorKind :=
  | CekFetch | CekParseRobots | CekHttpStatusCode
  | CekReadBody | CekParseBody | CekProcessLinks.

(** Modelled from the spec: [CrawlError] is declared outside [worker.go]; it
    is a tagged error value carrying a kind, an optional underlying cause,
    the URL involved and, when built from a message, that message. *)
Record CrawlError := mkCrawlError {
  ce_Err : option go_error;
  ce_Kind : CrawlErrorKind;
  ce_URL : option URL;
  ce_msg : string
}.

(** Modelled from the spec: the constructor taking an underlying cause. *)
Definition newCrawlError (e : go_error) (kind : CrawlErrorKind)
    (u : option URL) : CrawlError :=
  mkCrawlError (Some e) kind u "".

(** Modelled from the spec: the constructor taking a message (the status
    text for an HTTP-status error). *)
Definition newCrawlErrorMessage (msg : string) (kind : CrawlErrorKind)
    (u : option URL) : CrawlError :=
  mkCrawlError None kind u msg.

(** The arguments handed to the logging sink after the format string. *)
Inductive LogArg :=
  | ArgURL (u : URL)
  | ArgString (s : string)
  | ArgDuration (d : Duration).

(** The states of the control loop. *)
Inductive Phase := WaitingForBatch | Terminated.

(** The three communications of the [select] in [run]. *)
Inductive SelectCase :=
  | CaseStop
  | CaseIdle
  | CaseBatch (batch : list workerCommand).

(** ** The worker and its surroundings *)

Section Worker.

(** The state of everything outside the worker (the extender's own state,
    the network, the coordinator), and the types the parsing libraries
    return: a robots.txt rule group, parsed robots.txt data, an HTML node. *)
Variables W Group RobotsData Node : Type.

(** [goquery.Document]: the root node and the [Url] field the worker sets. *)
Record Document := mkDocument {
  doc_node : Node;
  doc_Url : URL
}.

(** A callback into the outside world.  It is told the current time and
    the world's state, and returns its result, the world's new state and the
    time it took. *)
Definition Hook (A : Type) : Type := Time -> W -> A * W * N.

(** The [Extender] methods the worker calls. *)
Record Extender := mkExtender {
  Fetch : URL -> string -> bool -> Hook (Response + go_error);
  RequestRobots : URL -> string -> Hook (bool * bytes);
  FetchedRobots : Response -> Hook unit;
  RequestGet : Response -> Hook bool;
  Visit : Response -> option Document -> Hook (list URL * bool);
  Visited : URL -> list URL -> Hook unit;
  Disallowed : URL -> Hook unit;
  ComputeDelay : string -> DelayInfo -> option FetchInfo -> Hook Duration;
  Error : CrawlError -> Hook unit
}.

(** The functions of other packages that the worker calls:
    [robotstxt.FromBytes], [RobotsData.FindGroup], [Group.Test],
    [Group.CrawlDelay], [html.Parse], the goquery query
    [doc.Find("a[href]").Map(...)] that lists the [href] values of the
    anchors in document order, [url.Parse] and [URL.ResolveReference]. *)
Record Library := mkLibrary {
  robotstxt_FromBytes : bytes -> RobotsData + go_error;
  FindGroup : RobotsData -> string -> option Group;
  Test : Group -> string -> bool;
  CrawlDelay : Group -> Duration;
  html_Parse : bytes -> Node + go_error;
  anchorHrefs : Node -> list string;
  url_Parse : string -> URL + go_error;
  ResolveReference : URL -> URL -> URL
}.

(** The worker's mutable fields and its configuration.  [wait] is the
    pending crawl-delay timer ([nil] when none), kept as the instant at
    which it delivers. *)
Record worker := mkWorker {
  host : string;
  index : Z;
  userAgent : string;
  robotUserAgent : string;
  crawlDelay : Duration;
  idleTTL : Duration;
  robotsGroup : option Group;
  wait : option Time;
  lastFetch : option FetchInfo;
  lastCrawlDelay : Duration
}.

Definition set_robotsGroup (g : option Group) (w : worker) : worker :=
  mkWorker (host w) (index w) (userAgent w) (robotUserAgent w) (crawlDelay w)
    (idleTTL w) g (wait w) (lastFetch w) (lastCrawlDelay w).

Definition set_wait (t : option Time) (w : worker) : worker :=
  mkWorker (host w) (index w) (userAgent w) (robotUserAgent w) (crawlDelay w)
    (idleTTL w) (robotsGroup w) t (lastFetch w) (lastCrawlDelay w).

Definition set_lastFetch (f : option FetchInfo) (w : worker) : worker :=
  mkWorker (host w) (index w) (userAgent w) (robotUserAgent w) (crawlDelay w)
    (idleTTL w) (robotsGroup w) (wait w) f (lastCrawlDelay w).

Definition set_lastCrawlDelay (d : Duration) (w : worker) : worker :=
  mkWorker (host w) (index w) (userAgent w) (robotUserAgent w) (crawlDelay w)
    (idleTTL w) (robotsGroup w) (wait w) (lastFetch w) d.

(** What an observer of the worker sees, in program order.  A callback
    event records the arguments and the result of the call; [EvFetch] also
    records the instants at which the call started and returned and the
    crawl delay in force ([lastCrawlDelay]) during it. *)
Inductive Event :=
  | EvLog (flag : LogFlags) (format : string) (args : list LogArg)
  | EvFetch (u : URL) (agent : string) (headRequest : bool)
      (start finish : Time) (delay : Duration) (r : Response + go_error)
  | EvRequestRobots (u : URL) (agent : string) (r : bool * bytes)
  | EvFetchedRobots (res : Response)
  | EvRequestGet (res : Response) (r : bool)
  | EvVisit (res : Response) (doc : option Document) (r : list URL * bool)
  | EvVisited (u : URL) (harvested : list URL)
  | EvDisallowed (u : URL)
  | EvComputeDelay (h : string) (di : DelayInfo) (lf : option FetchInfo)
      (r : Duration)
  | EvError (e : CrawlError)
  | EvPush (r : workerResponse)
  | EvClose (res : Response)
  | EvWgDone.

(** The machine: the worker, the world, the clock, and what the coordinator
    will send: the instant at which the stop signal becomes ready (if ever)
    and the batches queued on [pop], each with the instant at which it
    becomes ready. *)
Record Machine := mkMachine {
  wk : worker;
  world : W;
  clock : Time;
  stopAt : option Time;
  inbox : list (Time * list workerCommand)
}.

(** *** The monad *)

Definition M (A : Type) : Type := Machine -> A * Machine * list Event.

Definition ret {A : Type} (a : A) : M A := fun m => (a, m, []).

Definition bind {A B : Type} (c : M A) (k : A -> M B) : M B :=
  fun m =>
    let '(a, m1, t1) := c m in
    let '(b, m2, t2) := k a m1 in
    (b, m2, t1 ++ t2).

Notation "x <- c ;; k" := (bind c (fun x => k))
  (at level 61, c at next level, right associativity).
Notation "c ;; k" := (bind c (fun _ => k))
  (at level 61, right associativity).
Notation "' pat <- c ;; k" := (bind c (fun x => let pat := x in k))
  (at level 61, pat pattern, c at next level, right associativity).

Definition emit (e : Event) : M unit := fun m => (tt, m, [e]).

Definition this : M worker := fun m => (wk m, m, []).

Definition update (f : worker -> worker) : M unit :=
  fun m =>
    (tt, mkMachine (f (wk m)) (world m) (clock m) (stopAt m) (inbox m), []).

(** [time.Now()]. *)
Definition time_Now : M Time := fun m => (clock m, m, []).

(** [<-ch] for a timer channel that delivers at [t]: returns at once when
    [t] has passed, at [t] otherwise. *)
Definition receive_timer (t : Time) : M unit :=
  fun m =>
    (tt, mkMachine (wk m) (world m) (Z.max (clock m) t) (stopAt m) (inbox m),
     []).

(** Calling a callback: the world changes and time passes. *)
Definition call {A : Type} (h : Hook A) : M A :=
  fun m =>
    let '(a, w', dt) := h (clock m) (world m) in
    (a, mkMachine (wk m) w' (clock m + Z.of_N dt) (stopAt m) (inbox m), []).

(** The non-blocking [select] on [stop] inside a batch: is the stop signal
    ready now? *)
Definition stop_ready (m : Machine) : bool :=
  match stopAt m with
  | Some t => t <=? clock m
  | None => false
  end.

Definition poll_stop : M bool := fun m => (stop_ready m, m, []).

(** *** The worker's collaborators *)

Variable extender : Extender.
Variable logFunc : LogFlags -> string -> list LogArg -> Hook unit.
Variable lib : Library.

(** [isRobotsTxtUrl] is defined in another file of the package; it takes a
    possibly nil [*url.URL]. *)
Variable isRobotsTxtUrl : option URL -> bool.

Definition log (flag : LogFlags) (format : string) (args : list LogArg)
    : M unit :=
  call (logFunc flag format args) ;; emit (EvLog flag format args).

Definition ext_Error (e : CrawlError) : M unit :=
  call (Error extender e) ;; emit (EvError e).

(** [URL.String()] and [error.Error()] are left to the sink: the log event
    carries the URL and the message themselves. *)

(** *** sendResponse *)

Definition sendResponse (u : option URL) (visited : bool)
    (harvested : list URL) (idleDeath : bool) : M unit :=
  if negb (isRobotsTxtUrl u) then
    w <- this ;;
    emit (EvPush (mkWorkerResponse (host w) visited u harvested idleDeath))
  else ret tt.

(** *** isAllowedPerRobotsPolicies *)

Definition isAllowedPerRobotsPolicies (u : URL) : M bool :=
  w <- this ;;
  match robotsGroup w with
  | Some g =>
      let ok := Test lib g (Path u) in
      (if negb ok
       then log LogIgnored "ignored on robots.txt policy: %s\n" [ArgURL u]
       else ret tt) ;;
      ret ok
  | None => ret true
  end.

(** *** setCrawlDelay *)

Definition setCrawlDelay : M unit :=
  w <- this ;;
  let robDelay :=
    match robotsGroup w with
    | Some g => CrawlDelay lib g
    | None => 0
    end in
  let di := mkDelayInfo (crawlDelay w) robDelay (lastCrawlDelay w) in
  d <- call (ComputeDelay extender (host w) di (lastFetch w)) ;;
  emit (EvComputeDelay (host w) di (lastFetch w) d) ;;
  update (set_lastCrawlDelay d) ;;
  log LogInfo "using crawl-delay: %v\n" [ArgDuration d].

(** *** fetchUrl *)

(** One pass through the body of the loop of [fetchUrl], up to the test of
    [headRequest]: wait out the pending delay, compute the next one, call
    [Fetch], and either report the failure (the result is then [None] and
    [fetchUrl] returns [nil, false]) or arm the delay timer and record the
    telemetry. *)
Definition fetchAttempt (u : URL) (agent : string) (headRequest : bool)
    : M (option Response) :=
  log LogTrace "waiting for crawl delay\n" [] ;;
  w <- this ;;
  (match wait w with
   | Some t => receive_timer t ;; update (set_wait None)
   | None => ret tt
   end) ;;
  setCrawlDelay ;;
  now <- time_Now ;;
  r <- call (Fetch extender u agent headRequest) ;;
  finish <- time_Now ;;
  w <- this ;;
  emit (EvFetch u agent headRequest now finish (lastCrawlDelay w) r) ;;
  match r with
  | inr e =>
      update (set_lastFetch None) ;;
      ext_Error (newCrawlError e CekFetch (Some u)) ;;
      log LogError "ERROR fetching %s: %s\n" [ArgURL u; ArgString e] ;;
      sendResponse (Some u) false [] false ;;
      ret None
  | inl res =>
      now' <- time_Now ;;
      let fetchDuration := time_Sub now now' in
      update (set_wait (Some (time_After now' (lastCrawlDelay w)))) ;;
      update (set_lastFetch
                (Some (mkFetchInfo fetchDuration (StatusCode res) headRequest
                         (isRobotsTxtUrl (Some u))))) ;;
      ret (Some res)
  end.

(** The deferred [res.Body.Close()] calls, run when the function returns,
    last registered first. *)
Fixpoint run_deferred (deferred : list Response) : M unit :=
  match deferred with
  | [] => ret tt
  | res :: rest => emit (EvClose res) ;; run_deferred rest
  end.

(** The loop of [fetchUrl] as written, bounded by [fuel] passes; [None]
    means the bound was reached.  [deferred] holds the bodies whose closing
    has been deferred so far. *)
Fixpoint fetchLoop (fuel : nat) (u : URL) (agent : string)
    (headRequest : bool) (deferred : list Response)
    : M (option (option Response * bool)) :=
  match fuel with
  | O => ret None
  | S fuel' =>
      r <- fetchAttempt u agent headRequest ;;
      match r with
      | None => run_deferred deferred ;; ret (Some (None, false))
      | Some res =>
          if headRequest then
            go <- call (RequestGet extender res) ;;
            emit (EvRequestGet res go) ;;
            if negb go
            then run_deferred (res :: deferred) ;;
                 ret (Some (Some res, false))
            else fetchLoop fuel' u agent false (res :: deferred)
          else run_deferred deferred ;; ret (Some (Some res, true))
      end
  end.

(** [fetchUrl].  The loop makes a second pass only after a HEAD request
    that succeeded and was followed by an agreement to GET, and
    [headRequest] is false in that second pass, which therefore leaves the
    loop: the two passes are written out.  [fetchLoop_fetchUrl] below
    relates this to the loop. *)
Definition fetchUrl (u : URL) (agent : string) (headRequest : bool)
    : M (option Response * bool) :=
  r <- fetchAttempt u agent headRequest ;;
  match r with
  | None => ret (None, false)
  | Some res =>
      if headRequest then
        go <- call (RequestGet extender res) ;;
        emit (EvRequestGet res go) ;;
        if negb go
        then emit (EvClose res) ;; ret (Some res, false)
        else
          r2 <- fetchAttempt u agent false ;;
          emit (EvClose res) ;;
          match r2 with
          | None => ret (None, false)
          | Some res2 => ret (Some res2, true)
          end
      else ret (Some res, true)
  end.

(** *** processLinks *)

(** The loop over the [href] values; [result] is the slice built so far. *)
Fixpoint processLinks_loop (doc : Document) (urls : list string)
    (result : list URL) : M (list URL) :=
  match urls with
  | [] => ret result
  | s :: rest =>
      if (0 <? String.length s)%nat && negb (String.prefix "#" s) then
        match url_Parse lib s with
        | inl parsed =>
            processLinks_loop doc rest
              (result ++ [ResolveReference lib (doc_Url doc) parsed])
        | inr e =>
            log LogIgnored "ignore on unparsable policy %s: %s\n"
              [ArgString s; ArgString e] ;;
            processLinks_loop doc rest result
        end
      else processLinks_loop doc rest result
  end.

Definition processLinks (doc : Document) : M (list URL) :=
  processLinks_loop doc (anchorHrefs lib (doc_node doc)) [].

(** *** visitUrl *)

Definition visitUrl (res : Response) : M (list URL) :=
  let '(bd, e) := ioutil_ReadAll (RespBody res) in
  '(doc, res') <-
    (match e with
     | Some e =>
         ext_Error (newCrawlError e CekReadBody (Some (Request_URL res))) ;;
         log LogError "ERROR reading body %s: %s\n"
           [ArgURL (Request_URL res); ArgString e] ;;
         ret (None, res)
     | None =>
         doc <-
           (match html_Parse lib bd with
            | inr e =>
                ext_Error
                  (newCrawlError e CekParseBody (Some (Request_URL res))) ;;
                log LogError "ERROR parsing %s: %s\n"
                  [ArgURL (Request_URL res); ArgString e] ;;
                ret None
            | inl node => ret (Some (mkDocument node (Request_URL res)))
            end) ;;
         ret (doc, with_Body res (rewound bd))
     end) ;;
  r <- call (Visit extender res' doc) ;;
  emit (EvVisit res' doc r) ;;
  harvested <-
    (if snd r then
       match doc with
       | Some d => processLinks d
       | None =>
           ext_Error
             (newCrawlErrorMessage "No goquery document to process links."
                CekProcessLinks (Some (Request_URL res))) ;;
           log LogError "ERROR processing links %s\n"
             [ArgURL (Request_URL res)] ;;
           ret (fst r)
       end
     else ret (fst r)) ;;
  call (Visited extender (Request_URL res) harvested) ;;
  emit (EvVisited (Request_URL res) harvested) ;;
  ret harvested.

(** *** requestUrl *)

Definition is2xx (code : Z) : bool := (200 <=? code) && (code <? 300).

Definition requestUrl (u : URL) (headRequest : bool) : M unit :=
  w <- this ;;
  r <- fetchUrl u (userAgent w) headRequest ;;
  match r with
  | (Some res, true) =>
      w <- this ;;
      now <- time_Now ;;
      let wait := time_After now (lastCrawlDelay w) in
      hv <-
        (if is2xx (StatusCode res) then
           harvested <- visitUrl res ;;
           ret (harvested, true)
         else
           ext_Error
             (newCrawlErrorMessage (Status res) CekHttpStatusCode (Some u)) ;;
           log LogError "ERROR status code for %s: %s\n"
             [ArgURL u; ArgString (Status res)] ;;
           ret ([], false)) ;;
      sendResponse (Some u) (snd hv) (fst hv) false ;;
      receive_timer wait ;;
      emit (EvClose res)
  | _ => ret tt
  end.

(** *** getRobotsTxtGroup and requestRobotsTxt *)

Definition getRobotsTxtGroup (b : bytes) (res : option Response)
    : M (option Group) :=
  be <-
    (match res with
     | Some r =>
         let '(b', e') := ioutil_ReadAll (RespBody r) in
         let r' := with_Body r (rewound b') in
         call (FetchedRobots extender r') ;;
         emit (EvFetchedRobots r') ;;
         ret (b', e')
     | None => ret (b, None)
     end) ;;
  let parsed :=
    match snd be with
    | None => robotstxt_FromBytes lib (fst be)
    | Some e => inr e
    end in
  match parsed with
  | inr e =>
      ext_Error (newCrawlError e CekParseRobots None) ;;
      w <- this ;;
      log LogError "ERROR parsing robots.txt for host %s: %s\n"
        [ArgString (host w); ArgString e] ;;
      ret None
  | inl data =>
      w <- this ;;
      ret (FindGroup lib data (robotUserAgent w))
  end.

Definition requestRobotsTxt (u : URL) : M unit :=
  w <- this ;;
  rr <- call (RequestRobots extender u (robotUserAgent w)) ;;
  emit (EvRequestRobots u (robotUserAgent w) rr) ;;
  if negb (fst rr) then
    log LogInfo "using robots.txt from cache\n" [] ;;
    g <- getRobotsTxtGroup (snd rr) None ;;
    update (set_robotsGroup g)
  else
    r <- fetchUrl u (robotUserAgent w) false ;;
    match r with
    | (Some res, true) =>
        w <- this ;;
        now <- time_Now ;;
        let wait := time_After now (lastCrawlDelay w) in
        g <- getRobotsTxtGroup [] (Some res) ;;
        update (set_robotsGroup g) ;;
        receive_timer wait ;;
        emit (EvClose res)
    | _ => ret tt
    end.

(** *** run *)

(** The body of the loop over a batch, up to the check of the stop
    signal. *)
Definition processCommand (cmd : workerCommand) : M unit :=
  log LogInfo "popped: %s\n" [ArgURL (cmd_u cmd)] ;;
  if isRobotsTxtUrl (Some (cmd_u cmd)) then requestRobotsTxt (cmd_u cmd)
  else
    allowed <- isAllowedPerRobotsPolicies (cmd_u cmd) ;;
    if allowed then requestUrl (cmd_u cmd) (cmd_head cmd)
    else
      call (Disallowed extender (cmd_u cmd)) ;;
      emit (EvDisallowed (cmd_u cmd)) ;;
      sendResponse (Some (cmd_u cmd)) false [] false.

(** The loop over a batch.  [Terminated] is the [return] taken when the
    stop signal is ready after a command; [WaitingForBatch] is the end of
    the batch. *)
Fixpoint processBatch (batch : list workerCommand) : M Phase :=
  match batch with
  | [] => ret WaitingForBatch
  | cmd :: rest =>
      processCommand cmd ;;
      stop <- poll_stop ;;
      if stop then log LogInfo "stop signal received.\n" [] ;; ret Terminated
      else processBatch rest
  end.

(** The start of a pass through the outer loop: the log line and the idle
    timer, which is armed only when [idleTTL] is positive (a nil channel
    otherwise, on which a receive never proceeds). *)
Definition enter_wait : M (option Time) :=
  log LogInfo "waiting for pop...\n" [] ;;
  w <- this ;;
  if 0 <? idleTTL w then
    now <- time_Now ;;
    ret (Some (time_After now (idleTTL w)))
  else ret None.

(** The branches of the [select]. *)
Definition run_case (c : SelectCase) : M Phase :=
  match c with
  | CaseStop => log LogInfo "stop signal received.\n" [] ;; ret Terminated
  | CaseIdle =>
      log LogInfo "idle timeout received.\n" [] ;;
      sendResponse None false [] true ;;
      ret Terminated
  | CaseBatch batch => processBatch batch
  end.

(** The deferred function of [run]. *)
Definition run_exit : M unit :=
  log LogInfo "worker done.\n" [] ;; emit EvWgDone.

(** The blocking [select].  Each communication has an instant from which it
    can proceed: the stop signal from [stopAt], the idle timer from its
    deadline, the receive on [pop] from the arrival of the first queued
    batch; an instant in the past counts as now.  The [select] returns at
    the earliest of these instants, and takes one of the communications
    that can proceed then.  Go chooses among several that can proceed by a
    uniform pseudo-random selection, whatever the order of the cases in the
    source: every one of them is a possible outcome. *)
Definition ready_from (m : Machine) (t : Time) : Time := Z.max (clock m) t.

Definition candidates (m : Machine) (idleChan : option Time) : list Time :=
  match stopAt m with Some t => [ready_from m t] | None => [] end ++
  match idleChan with Some t => [ready_from m t] | None => [] end ++
  match inbox m with (t, _) :: _ => [ready_from m t] | [] => [] end.

Fixpoint earliest (ts : list Time) : option Time :=
  match ts with
  | [] => None
  | t :: rest =>
      match earliest rest with
      | Some t' => Some (Z.min t t')
      | None => Some t
      end
  end.

Definition at_time (m : Machine) (t : Time) : Machine :=
  mkMachine (wk m) (world m) t (stopAt m) (inbox m).

Definition pop_inbox (m : Machine) : Machine :=
  mkMachine (wk m) (world m) (clock m) (stopAt m) (tl (inbox m)).

Inductive select_takes (m : Machine) (idleChan : option Time)
    : SelectCase -> Machine -> Prop :=
  | take_stop : forall t wake,
      stopAt m = Some t ->
      earliest (candidates m idleChan) = Some wake ->
      ready_from m t <= wake ->
      select_takes m idleChan CaseStop (at_time m wake)
  | take_idle : forall t wake,
      idleChan = Some t ->
      earliest (candidates m idleChan) = Some wake ->
      ready_from m t <= wake ->
      select_takes m idleChan CaseIdle (at_time m wake)
  | take_batch : forall t batch rest wake,
      inbox m = (t, batch) :: rest ->
      earliest (candidates m idleChan) = Some wake ->
      ready_from m t <= wake ->
      select_takes m idleChan (CaseBatch batch) (pop_inbox (at_time m wake)).

(** One pass through the outer loop of [run]: from the machine [m], taking
    the communication [c], to the machine [m'], in phase [ph], having
    produced the events [tr]. *)
Inductive run_pass (m : Machine) (c : SelectCase) (ph : Phase)
    (m' : Machine) (tr : list Event) : Prop :=
  | run_pass_intro : forall idleChan m0 tr0 m1 tr1,
      enter_wait m = (idleChan, m0, tr0) ->
      select_takes m0 idleChan c m1 ->
      run_case c m1 = (ph, m', tr1) ->
      tr = tr0 ++ tr1 ->
      run_pass m c ph m' tr.

(** Some passes through the outer loop, one after the other: every pass
    but the last ends in [WaitingForBatch], and [ph] is the phase the last
    one ends in. *)
Inductive passes : Machine -> Phase -> Machine -> list Event -> Prop :=
  | passes_none : forall m, passes m WaitingForBatch m []
  | passes_more : forall m m1 tr1 c ph m2 tr2,
      passes m WaitingForBatch m1 tr1 ->
      run_pass m1 c ph m2 tr2 ->
      passes m ph m2 (tr1 ++ tr2).

(** [run], from its start to its return. *)
Inductive run (m : Machine) (m' : Machine) (tr : list Event) : Prop :=
  | run_return : forall m1 tr1 tr2,
      passes m Terminated m1 tr1 ->
      run_exit m1 = (tt, m', tr2) ->
      tr = tr1 ++ tr2 ->
      run m m' tr.

(** ** Observations on a list of events *)

(** The work results handed to the coordinator. *)
Definition pushes (tr : list Event) : list workerResponse :=
  flat_map (fun e => match e with EvPush r => [r] | _ => [] end) tr.

(** A call of [Fetch]: what was asked, when it started and returned, the
    crawl delay in force, and the outcome. *)
Record FetchRec := mkFetchRec {
  fr_u : URL;
  fr_agent : string;
  fr_head : bool;
  fr_start : Time;
  fr_finish : Time;
  fr_delay : Duration;
  fr_result : Response + go_error
}.

Definition fetches (tr : list Event) : list FetchRec :=
  flat_map
    (fun e =>
       match e with
       | EvFetch u a h s f d r => [mkFetchRec u a h s f d r]
       | _ => []
       end) tr.

Definition fr_ok (f : FetchRec) : bool :=
  match fr_result f with inl _ => true | inr _ => false end.

(** Did [RequestGet] answer no? *)
Definition declined (tr : list Event) : bool :=
  existsb
    (fun e => match e with EvRequestGet _ false => true | _ => false end) tr.

(** The errors reported through the error hook. *)
Definition errors (tr : list Event) : list CrawlError :=
  flat_map (fun e => match e with EvError c => [c] | _ => [] end) tr.

(** The calls of the [Visit] hook: the response and the document given. *)
Definition visits (tr : list Event) : list (Response * option Document) :=
  flat_map
    (fun e => match e with EvVisit res doc _ => [(res, doc)] | _ => [] end)
    tr.

(** The calls of the [Visited] hook. *)
Definition visiteds (tr : list Event) : list (URL * list URL) :=
  flat_map
    (fun e => match e with EvVisited u h => [(u, h)] | _ => [] end) tr.

(** The answers of the [RequestRobots] hook: whether to fetch, and the
    cached bytes. *)
Definition robots_answers (tr : list Event) : list (bool * bytes) :=
  flat_map
    (fun e => match e with EvRequestRobots _ _ r => [r] | _ => [] end) tr.

(** The lines logged at level [LogIgnored]. *)
Definition ignored (tr : list Event) : list (string * list LogArg) :=
  flat_map
    (fun e =>
       match e with EvLog LogIgnored f a => [(f, a)] | _ => [] end) tr.

(** The response a command ends with: that of its last fetch, when this
    is a GET that succeeded. *)
Definition final_response (tr : list Event) : option Response :=
  match rev (fetches tr) with
  | f :: _ =>
      if fr_head f then None
      else match fr_result f with inl res => Some res | inr _ => None end
  | [] => None
  end.

(** An event that is neither a fetch, nor a push, nor an answer of
    [RequestGet]. *)
Definition passive (e : Event) : bool :=
  match e with
  | EvFetch _ _ _ _ _ _ _ | EvPush _ | EvRequestGet _ _ => false
  | _ => true
  end.

(** An event that is only a log line, a delay computation or the closing
    of a body. *)
Definition silent (e : Event) : bool :=
  match e with
  | EvLog _ _ _ | EvComputeDelay _ _ _ _ | EvClose _ => true
  | _ => false
  end.

(** The fields of the worker that are set once, at its creation. *)
Definition same_config (w w' : worker) : Prop :=
  host w' = host w /\ index w' = index w /\ userAgent w' = userAgent w /\
  robotUserAgent w' = robotUserAgent w /\ crawlDelay w' = crawlDelay w /\
  idleTTL w' = idleTTL w.

(** A step that leaves the worker's fields and the coordinator's schedule
    alone, takes some time, and produces passive events only. *)
Definition quiet_step (m m' : Machine) (tr : list Event) : Prop :=
  wk m' = wk m /\ stopAt m' = stopAt m /\ inbox m' = inbox m /\
  clock m <= clock m' /\ forallb passive tr = true.

(** What harvesting yields for one [href] value [s] of a document whose
    URL is [base]: nothing for an empty value or one that starts with a
    hash sign, the resolved reference for one that parses, nothing for one
    that does not. *)
Definition harvest_one (base : URL) (s : string) : list URL :=
  if (0 <? String.length s)%nat && negb (String.prefix "#" s) then
    match url_Parse lib s with
    | inl parsed => [ResolveReference lib base parsed]
    | inr _ => []
    end
  else [].

(** The line logged at level [LogIgnored] for one [href] value: one for a
    value that is tried and does not parse, none otherwise. *)
Definition ignored_one (s : string) : list (string * list LogArg) :=
  if (0 <? String.length s)%nat && negb (String.prefix "#" s) then
    match url_Parse lib s with
    | inl _ => []
    | inr e =>
        [("ignore on unparsable policy %s: %s\n", [ArgString s; ArgString e])]
    end
  else [].

(** Spacing of fetches.  [guard] is the delivery instant of the pending
    delay timer, if one is pending: the next fetch must not start before
    it.  A fetch that succeeds arms a timer for its return plus the delay in
    force; a fetch that fails leaves none. *)
Definition guard_after (f : FetchRec) : option Time :=
  if fr_ok f then Some (fr_finish f + fr_delay f) else None.

Fixpoint spaced_from (guard : option Time) (fs : list FetchRec) : Prop :=
  match fs with
  | [] => True
  | f :: rest =>
      match guard with Some t => t <= fr_start f | None => True end /\
      spaced_from (guard_after f) rest
  end.

Fixpoint last_guard (guard : option Time) (fs : list FetchRec)
    : option Time :=
  match fs with
  | [] => guard
  | f :: rest => last_guard (guard_after f) rest
  end.

(** A step that keeps the configuration and the coordinator's schedule,
    does not go back in time, starts no fetch before the pending delay
    timer delivers nor before the timer armed by the fetch before it, and
    leaves in [wait] the timer armed by its last fetch. *)
Definition paced (m m' : Machine) (tr : list Event) : Prop :=
  same_config (wk m) (wk m') /\
  stopAt m' = stopAt m /\ inbox m' = inbox m /\
  clock m <= clock m' /\
  spaced_from (wait (wk m)) (fetches tr) /\
  wait (wk m') = last_guard (wait (wk m)) (fetches tr) /\
  Forall (fun f => fr_start f <= fr_finish f) (fetches tr).

Definition Paced {A : Type} (c : M A) : Prop :=
  forall m a m' tr, c m = (a, m', tr) -> paced m m' tr.

(** ** The delay in force during a fetch *)

(** A call of [ComputeDelay]: the host, the delays and the telemetry it
    was given, and its answer. *)
Record DelayRec := mkDelayRec {
  dr_host : string;
  dr_info : DelayInfo;
  dr_lastFetch : option FetchInfo;
  dr_result : Duration
}.

Definition delays (tr : list Event) : list DelayRec :=
  flat_map
    (fun e =>
       match e with
       | EvComputeDelay h di lf r => [mkDelayRec h di lf r]
       | _ => []
       end) tr.

(** An event that is neither a fetch nor a delay computation. *)
Definition inert (e : Event) : bool :=
  match e with
  | EvFetch _ _ _ _ _ _ _ | EvComputeDelay _ _ _ _ => false
  | _ => true
  end.

(** Every event of a run of [c] satisfies [P]. *)
Definition Emits (P : Event -> bool) {A : Type} (c : M A) : Prop :=
  forall m a m' tr, c m = (a, m', tr) -> forallb P tr = true.

(** Along [tr], the delays in force during the fetches are, one for one and
    in order, the answers of [ComputeDelay]. *)
Definition timed (tr : list Event) : Prop :=
  map dr_result (delays tr) = map fr_delay (fetches tr).

Definition Timed {A : Type} (c : M A) : Prop :=
  forall m a m' tr, c m = (a, m', tr) -> timed tr.

(** ** Further observations *)

(** The URLs reported through the [Disallowed] hook. *)
Definition disalloweds (tr : list Event) : list URL :=
  flat_map (fun e => match e with EvDisallowed u => [u] | _ => [] end) tr.

(** The responses whose body was closed. *)
Definition closes (tr : list Event) : list Response :=
  flat_map (fun e => match e with EvClose res => [res] | _ => [] end) tr.

(** The responses handed to the [FetchedRobots] hook. *)
Definition fetched_robots (tr : list Event) : list Response :=
  flat_map (fun e => match e with EvFetchedRobots res => [res] | _ => [] end)
    tr.

(** The calls of the [RequestRobots] hook: the URL and the user agent. *)
Definition robots_requests (tr : list Event) : list (URL * string) :=
  flat_map
    (fun e => match e with EvRequestRobots u a _ => [(u, a)] | _ => [] end)
    tr.

(** The answers of the [Visit] hook: the links it harvested and whether it
    leaves the links to the worker. *)
Definition visit_answers (tr : list Event) : list (list URL * bool) :=
  flat_map (fun e => match e with EvVisit _ _ r => [r] | _ => [] end) tr.

(** The URLs of the commands taken from a batch: each is logged when the
    loop over the batch reaches it. *)
Definition popped (tr : list Event) : list URL :=
  flat_map
    (fun e =>
       match e with
       | EvLog LogInfo format [ArgURL u] =>
           if String.eqb format "popped: %s\n" then [u] else []
       | _ => []
       end) tr.

(** The number of calls of [wg.Done]. *)
Definition wg_dones (tr : list Event) : nat :=
  List.length
    (filter (fun e => match e with EvWgDone => true | _ => false end) tr).

(** The responses obtained by a list of fetches. *)
Definition responses (fs : list FetchRec) : list Response :=
  flat_map
    (fun f => match fr_result f with inl res => [res] | inr _ => [] end) fs.

(** The telemetry [fetchUrl] records for a fetch: none when it failed. *)
Definition telemetry (f : FetchRec) : option FetchInfo :=
  match fr_result f with
  | inl res =>
      Some (mkFetchInfo (time_Sub (fr_start f) (fr_finish f))
              (StatusCode res) (fr_head f) (isRobotsTxtUrl (Some (fr_u f))))
  | inr _ => None
  end.

(** The events a robots.txt command may produce, and those a command for
    any other URL may produce. *)
Definition robots_event (e : Event) : bool :=
  match e with
  | EvLog _ _ _ | EvRequestRobots _ _ _ | EvComputeDelay _ _ _ _
  | EvFetch _ _ _ _ _ _ _ | EvError _ | EvFetchedRobots _ | EvClose _ => true
  | _ => false
  end.

Definition page_event (e : Event) : bool :=
  match e with
  | EvRequestRobots _ _ _ | EvFetchedRobots _ | EvWgDone => false
  | _ => true
  end.

(** A log line other than the one for a popped command, or an error
    report. *)
Definition note_event (e : Event) : bool :=
  match e with
  | EvLog _ format _ => negb (String.eqb format "popped: %s\n")
  | EvError _ => true
  | _ => false
  end.

(** The events between a fetch and what follows it: notes, and the calls
    of [Visit], [Visited] and [FetchedRobots]. *)
Definition inner_event (e : Event) : bool :=
  match e with
  | EvVisit _ _ _ | EvVisited _ _ | EvFetchedRobots _ => true
  | _ => note_event e
  end.

(** The bookkeeping of delays and telemetry along a list of events, from
    the telemetry [lf] and the delay [ld] the worker holds at its start:
    [ComputeDelay] is given the delay it answered last and the telemetry of
    the latest fetch, and a fetch runs under the delay answered last. *)
Fixpoint booked (lf : option FetchInfo) (ld : Duration) (tr : list Event)
    : Prop :=
  match tr with
  | [] => True
  | EvComputeDelay _ di lf' r :: rest =>
      LastDelay di = ld /\ lf' = lf /\ booked lf r rest
  | EvFetch u a h s f d r :: rest =>
      d = ld /\ booked (telemetry (mkFetchRec u a h s f d r)) ld rest
  | _ :: rest => booked lf ld rest
  end.

(** The telemetry and the delay the worker holds after a list of events. *)
Fixpoint telemetry_after (lf : option FetchInfo) (tr : list Event)
    : option FetchInfo :=
  match tr with
  | [] => lf
  | EvFetch u a h s f d r :: rest =>
      telemetry_after (telemetry (mkFetchRec u a h s f d r)) rest
  | _ :: rest => telemetry_after lf rest
  end.

Fixpoint delay_after (ld : Duration) (tr : list Event) : Duration :=
  match tr with
  | [] => ld
  | EvComputeDelay _ _ _ r :: rest => delay_after r rest
  | _ :: rest => delay_after ld rest
  end.

(** The user agent a command is fetched with, and whether its first
    request is a HEAD. *)
Definition agent_for (cmd : workerCommand) (w : worker) : string :=
  if isRobotsTxtUrl (Some (cmd_u cmd)) then robotUserAgent w
  else userAgent w.

Definition head_first (cmd : workerCommand) : bool :=
  cmd_head cmd && negb (isRobotsTxtUrl (Some (cmd_u cmd))).

(** A response as [FetchedRobots] is given it: its body can be read
    again. *)
Definition reread (r : Response) : Response :=
  with_Body r (rewound (body_data (RespBody r))).

(** The events of the control loop itself: notes and work results. *)
Definition scaffold_event (e : Event) : bool :=
  match e with
  | EvPush _ => true
  | _ => note_event e
  end.

(** An event other than the call of [wg.Done]. *)
Definition not_done (e : Event) : bool :=
  match e with EvWgDone => false | _ => true end.

End Worker.

Arguments EvLog {Node}.
Arguments EvFetch {Node}.
Arguments EvRequestRobots {Node}.
Arguments EvFetchedRobots {Node}.
Arguments EvRequestGet {Node}.
Arguments EvVisited {Node}.
Arguments EvDisallowed {Node}.
Arguments EvComputeDelay {Node}.
Arguments EvError {Node}.
Arguments EvPush {Node}.
Arguments EvClose {Node}.
Arguments EvWgDone {Node}.

(** ** A scenario to run the worker on

    A small world and small stand-ins for the libraries, on which the
    worker's methods evaluate: they give the concrete runs used below. *)

Module Scenario.

(** The world: the outcomes the network gives to the coming calls of
    [Fetch], each with the time the call takes. *)
Definition World := list ((Response + go_error) * N).

Definition second : Duration := 1000000000.

Definition scripted_Fetch (_ : URL) (_ : string) (_ : bool)
    : Hook World (Response + go_error) :=
  fun _ w =>
    match w with
    | (r, dt) :: rest => (r, rest, dt)
    | [] => (inr "no route to host", [], 0%N)
    end.

Definition answer {A : Type} (a : A) : Hook World A :=
  fun _ w => (a, w, 0%N).

(** An extender whose [RequestRobots], [RequestGet] and [Visit] give fixed
    answers and whose [ComputeDelay] returns the larger of the robots.txt
    delay and the configured delay. *)
Definition extender (robots : bool * bytes) (get : bool)
    (visit : list URL * bool) : Extender World (list string) :=
  mkExtender
    scripted_Fetch
    (fun _ _ => answer robots)
    (fun _ => answer tt)
    (fun _ => answer get)
    (fun _ _ => answer visit)
    (fun _ _ => answer tt)
    (fun _ => answer tt)
    (fun _ di _ => answer (Z.max (RobotsDelay di) (OptsDelay di)))
    (fun _ => answer tt).

Definition logFunc (_ : LogFlags) (_ : string) (_ : list LogArg)
    : Hook World unit :=
  answer tt.

(** Robots data is the path prefix it disallows; bytes starting with a
    zero byte do not parse.  An HTML node is the list of its anchors'
    [href] values; the empty input does not parse.  A reference starting
    with a percent sign does not parse as a URL; one starting with a slash
    replaces the path of the base. *)
Definition lib : Library string string (list string) :=
  mkLibrary
    (fun b =>
       match b with
       | Byte.x00 :: _ => inr "invalid robots.txt"
       | _ => inl "/priv"
       end)
    (fun data _ => Some data)
    (fun g path => negb (String.prefix g path))
    (fun _ => 2 * second)
    (fun b =>
       match b with
       | [] => inr "empty document"
       | _ => inl ["#frag"; "/x"; "%zz"]
       end)
    (fun node => node)
    (fun s =>
       if String.prefix "%" s then inr "invalid URL escape"
       else inl (mkURL "" "" s "" ""))
    (fun base ref =>
       if String.prefix "/" (Path ref)
       then mkURL (Scheme base) (Host base) (Path ref) (RawQuery ref)
              (Fragment ref)
       else ref).

Definition isRobotsTxtUrl (u : option URL) : bool :=
  match u with
  | Some u => String.eqb (Path u) "/robots.txt"
  | None => false
  end.

Definition url (path : string) : URL := mkURL "http" "h" path "" "".

Definition page (code : Z) (status : string) (body : Body) (path : string)
    : Response :=
  mkResponse status code body (url path).

Definition html : Body := mkBody [Byte.x3c; Byte.x61; Byte.x3e] None.
Definition broken : Body := mkBody [Byte.x3c] (Some "unexpected EOF").

(** A worker for host [h] with a configured delay of one second, no idle
    timeout, and no robots policy, fetch or delay yet. *)
Definition worker0 : worker string :=
  mkWorker "h" 0 "crawler" "robot" second 0 None None None 0.

Definition machine (w : worker string) (net : World)
    (stop : option Time) (queue : list (Time * list workerCommand))
    : Machine World string :=
  mkMachine w net 0 stop queue.

(** The same worker once robots.txt has been read: its policy asks for a
    crawl delay of two seconds. *)
Definition polite_worker : worker string :=
  mkWorker "h" 0 "crawler" "robot" second 0 (Some "/priv") None None 0.

Definition robots_cmd : workerCommand := mkCommand (url "/robots.txt") false.
Definition get_cmd (path : string) : workerCommand :=
  mkCommand (url path) false.
Definition head_cmd (path : string) : workerCommand :=
  mkCommand (url path) true.

(** Extenders that ask for robots.txt to be fetched and agree to the GET,
    that refuse the GET, and that supply robots.txt from a cache.  Their
    [Visit] harvests nothing itself and leaves the links to the worker. *)
Definition fetching : Extender World (list string) :=
  extender (true, []) true ([], true).
Definition declining : Extender World (list string) :=
  extender (true, []) false ([], true).
Definition caching (b : bytes) : Extender World (list string) :=
  extender (false, b) true ([], true).

Definition command (ext : Extender World (list string))
    (cmd : workerCommand) (m : Machine World string)
    : unit * Machine World string * list (Event (list string)) :=
  processCommand ext logFunc lib isRobotsTxtUrl cmd m.

Definition ok (body : Body) (path : string) : Response :=
  page 200 "200 OK" body path.
Definition not_found (path : string) : Response :=
  page 404 "404 Not Found" html path.

(** The pass through the control loop that takes the first queued batch at
    the instant from which it can be received. *)
Definition take_first_batch (ext : Extender World (list string))
    (m : Machine World string)
    : Phase * Machine World string * list (Event (list string)) :=
  let '(_, m0, tr0) := enter_wait (list string) logFunc m in
  match inbox m0 with
  | (t, batch) :: _ =>
      let '(ph, m', tr1) :=
        run_case ext logFunc lib isRobotsTxtUrl (CaseBatch batch)
          (pop_inbox (at_time m0 (ready_from m0 t))) in
      (ph, m', tr0 ++ tr1)
  | [] => (WaitingForBatch, m0, tr0)
  end.

(** The pass that takes the stop transition at the instant from which the
    stop signal can be received. *)
Definition take_stop_signal (ext : Extender World (list string))
    (m : Machine World string)
    : Phase * Machine World string * list (Event (list string)) :=
  let '(_, m0, tr0) := enter_wait (list string) logFunc m in
  match stopAt m0 with
  | Some t =>
      let '(ph, m', tr1) :=
        run_case ext logFunc lib isRobotsTxtUrl CaseStop
          (at_time m0 (ready_from m0 t)) in
      (ph, m', tr0 ++ tr1)
  | None => (WaitingForBatch, m0, tr0)
  end.

(** *** The runs *)

(** One command each, on a worker that has fetched nothing yet. *)
Definition fresh (net : World) : Machine World string :=
  machine worker0 net None [].

Definition run_robots_200 :=
  command fetching robots_cmd (fresh [(inl (ok html "/robots.txt"), 5%N)]).
Definition run_robots_404 :=
  command fetching robots_cmd (fresh [(inl (not_found "/robots.txt"), 5%N)]).
Definition run_robots_broken :=
  command fetching robots_cmd (fresh [(inl (ok broken "/robots.txt"), 5%N)]).
Definition run_robots_unreachable :=
  command fetching robots_cmd (fresh [(inr "connection refused", 5%N)]).
Definition run_robots_cached_bad :=
  command (caching [Byte.x00]) robots_cmd
    (machine polite_worker [] None []).
Definition run_page_200 :=
  command fetching (get_cmd "/p") (fresh [(inl (ok html "/p"), 5%N)]).
Definition run_page_404 :=
  command fetching (get_cmd "/p") (fresh [(inl (not_found "/p"), 5%N)]).
Definition run_page_broken :=
  command fetching (get_cmd "/p") (fresh [(inl (ok broken "/p"), 5%N)]).
Definition run_page_unreachable :=
  command fetching (get_cmd "/p") (fresh [(inr "connection refused", 5%N)]).
Definition run_head_declined :=
  command declining (head_cmd "/p") (fresh [(inl (ok html "/p"), 5%N)]).

(** The fetch of [run_page_unreachable]. *)
Definition refused_fetch : FetchRec :=
  mkFetchRec (url "/p") "crawler" false 0 5 second
    (inr "connection refused").

(** One pass of [fetchUrl]'s loop, for a fetch that takes 5ns. *)
Definition attempt_5ns :=
  fetchAttempt fetching logFunc lib isRobotsTxtUrl (url "/p") "crawler" false
    (fresh [(inl (ok html "/p"), 5%N)]).

(** Harvesting a page at [http://h/p] with three anchors. *)
Definition page_doc : Document (list string) :=
  mkDocument ["#frag"; "/x"; "%zz"] (url "/p").
Definition harvest_run :=
  processLinks (Group:=string) logFunc lib page_doc (fresh []).

(** Batches for a worker whose robots policy asks for two seconds between
    requests, the configured delay being one second: a HEAD then a GET; a
    fetch that is refused, then a fetch; a fetch that takes three seconds,
    then a fetch. *)
Definition queue_head_get : Machine World string :=
  machine polite_worker
    [(inl (ok html "/a"), 3%N); (inl (ok html "/a"), 4%N)] None
    [(0, [head_cmd "/a"])].
Definition queue_after_failure : Machine World string :=
  machine polite_worker
    [(inr "connection refused", 5%N); (inl (ok html "/b"), 7%N)] None
    [(0, [get_cmd "/a"; get_cmd "/b"])].
Definition queue_slow_fetch : Machine World string :=
  machine polite_worker
    [(inl (ok html "/a"), 3000000000%N); (inl (ok html "/b"), 7%N)] None
    [(0, [get_cmd "/a"; get_cmd "/b"])].

(** The two fetches of the batch of [queue_head_get]: the HEAD, and the
    GET two seconds after the HEAD returned. *)
Definition head_fetch : FetchRec :=
  mkFetchRec (url "/a") "crawler" true 0 3 (2 * second) (inl (ok html "/a")).
Definition get_fetch : FetchRec :=
  mkFetchRec (url "/a") "crawler" false (2 * second + 3) (2 * second + 7)
    (2 * second) (inl (ok html "/a")).

(** A batch is queued and the stop signal is ready, both from the start;
    and the stop signal alone. *)
Definition queue_and_stop : Machine World string :=
  machine worker0 [(inl (ok html "/p"), 5%N)] (Some 0)
    [(0, [get_cmd "/p"])].
Definition stop_only : Machine World string :=
  machine worker0 [] (Some 0) [].

Definition trace_of {A : Type} (r : A * Machine World string
    * list (Event (list string))) : list (Event (list string)) :=
  snd r.

Definition state_of {A : Type} (r : A * Machine World string
    * list (Event (list string))) : Machine World string :=
  snd (fst r).

(** *** Further runs *)

(** A command that the policy of [polite_worker] disallows. *)
Definition run_disallowed :=
  command fetching (get_cmd "/priv/x") (machine polite_worker [] None []).

(** A HEAD that is followed by the GET, and the robots.txt command of a
    worker that holds a policy, when the fetch is refused. *)
Definition run_head_get :=
  command fetching (head_cmd "/a")
    (machine polite_worker
       [(inl (ok html "/a"), 3%N); (inl (ok html "/a"), 4%N)] None []).
Definition run_robots_refused :=
  command fetching robots_cmd
    (machine polite_worker [(inr "connection refused", 5%N)] None []).

(** The visit of a page. *)
Definition visit_page :=
  visitUrl (Group:=string) fetching logFunc lib (ok html "/p") (fresh []).

(** A batch of two commands, the stop signal becoming ready during the
    first. *)
Definition two_commands : list workerCommand := [get_cmd "/a"; get_cmd "/b"].
Definition batch_stopped :=
  processBatch fetching logFunc lib isRobotsTxtUrl two_commands
    (machine worker0 [(inl (ok html "/a"), 5%N); (inl (ok html "/b"), 5%N)]
       (Some 3) []).

(** A worker with an idle timeout of five seconds, to which nothing is
    sent, and the pass that takes the idle timeout when the timer
    delivers. *)
Definition idle_worker : worker string :=
  mkWorker "h" 0 "crawler" "robot" second (5 * second) None None None 0.
Definition idle_only : Machine World string :=
  machine idle_worker [] None [].
Definition take_idle_timeout (ext : Extender World (list string))
    (m : Machine World string)
    : Phase * Machine World string * list (Event (list string)) :=
  let '(idleChan, m0, tr0) := enter_wait (list string) logFunc m in
  match idleChan with
  | Some t =>
      let '(ph, m', tr1) :=
        run_case ext logFunc lib isRobotsTxtUrl CaseIdle
          (at_time m0 (ready_from m0 t)) in
      (ph, m', tr0 ++ tr1)
  | None => (WaitingForBatch, m0, tr0)
  end.

(** The return of [run] after the stop signal was taken. *)
Definition stop_exit :=
  run_exit (list string) logFunc
    (state_of (take_stop_signal fetching stop_only)).

End Scenario.

(** ** Reasoning about runs *)

(** Case analysis on the scrutinee of a [match] in a hypothesis, innermost
    first. *)
Ltac break_in H :=
  match type of H with
  | context [match ?x with _ => _ end] =>
      lazymatch x with
      | context [match _ with _ => _ end] => fail
      | negb ?b =>
          first [ match goal with E : b = _ |- _ => rewrite E in H end
                | is_var b; destruct b
                | destruct b eqn:? ]
      | _ =>
          first [ match goal with E : x = _ |- _ => rewrite E in H end
                | is_var x; destruct x
                | destruct x eqn:? ]
      end
  end.

Ltac unfold_monad_in H :=
  unfold setCrawlDelay, sendResponse, ext_Error, log, call, bind, ret, emit,
    this, update, time_Now, receive_timer, poll_stop in H.

(** Run a monadic definition symbolically: every callback's answer and
    every test becomes a case. *)
Ltac exec_in H :=
  unfold_monad_in H; cbn in H;
  repeat (break_in H; cbn in H);
  repeat match goal with
         | E : negb ?b = _ |- _ =>
             is_var b; destruct b; cbn in E; try discriminate E; clear E
         end.

Ltac finish_run H := inversion H; subst; clear H.

(** Compute the observations on a list of events built from known events
    and from lists about which facts are at hand. *)
Ltac trace_norm :=
  unfold pushes, fetches, errors, visits, visiteds, ignored, declined,
    robots_answers in *;
  cbn in *;
  repeat (progress
            (rewrite ?flat_map_app, ?existsb_app, ?forallb_app; cbn;
             repeat match goal with
                    | E : flat_map _ ?l = _ |- _ => is_var l; rewrite E
                    | E : existsb _ ?l = _ |- _ => is_var l; rewrite E
                    | E : forallb _ ?l = _ |- _ => is_var l; rewrite E
                    end; cbn)).

Section TraceFacts.

Variable Node : Type.
Implicit Types a b tr : list (Event Node).

Lemma pushes_app a b : pushes (a ++ b) = pushes a ++ pushes b.
Proof. apply flat_map_app. Qed.

Lemma fetches_app a b : fetches (a ++ b) = fetches a ++ fetches b.
Proof. apply flat_map_app. Qed.

Lemma errors_app a b : errors (a ++ b) = errors a ++ errors b.
Proof. apply flat_map_app. Qed.

Lemma visits_app a b : visits (a ++ b) = visits a ++ visits b.
Proof. apply flat_map_app. Qed.

Lemma visiteds_app a b : visiteds (a ++ b) = visiteds a ++ visiteds b.
Proof. apply flat_map_app. Qed.

Lemma ignored_app a b : ignored (a ++ b) = ignored a ++ ignored b.
Proof. apply flat_map_app. Qed.

Lemma robots_answers_app a b :
  robots_answers (a ++ b) = robots_answers a ++ robots_answers b.
Proof. apply flat_map_app. Qed.

Lemma declined_app a b : declined (a ++ b) = declined a || declined b.
Proof. apply existsb_app. Qed.

Lemma passive_app a b :
  forallb (@passive Node) (a ++ b) =
  forallb (@passive Node) a && forallb (@passive Node) b.
Proof. apply forallb_app. Qed.

Lemma pushes_cons e tr :
  pushes (e :: tr) = match e with EvPush r => [r] | _ => [] end ++ pushes tr.
Proof. reflexivity. Qed.

Lemma fetches_cons e tr :
  fetches (e :: tr) =
  match e with
  | EvFetch u a h s f d r => [mkFetchRec u a h s f d r]
  | _ => []
  end ++ fetches tr.
Proof. reflexivity. Qed.

Lemma errors_cons e tr :
  errors (e :: tr) = match e with EvError c => [c] | _ => [] end ++ errors tr.
Proof. reflexivity. Qed.

Lemma visits_cons e tr :
  visits (e :: tr) =
  match e with EvVisit res doc _ => [(res, doc)] | _ => [] end ++ visits tr.
Proof. reflexivity. Qed.

Lemma visiteds_cons e tr :
  visiteds (e :: tr) =
  match e with EvVisited u h => [(u, h)] | _ => [] end ++ visiteds tr.
Proof. reflexivity. Qed.

Lemma robots_answers_cons e tr :
  robots_answers (e :: tr) =
  match e with EvRequestRobots _ _ r => [r] | _ => [] end ++
  robots_answers tr.
Proof. reflexivity. Qed.

Lemma declined_cons e tr :
  declined (e :: tr) =
  match e with EvRequestGet _ false => true | _ => false end || declined tr.
Proof. reflexivity. Qed.

Lemma pushes_nil : pushes (@nil (Event Node)) = [].
Proof. reflexivity. Qed.

Lemma fetches_nil : fetches (@nil (Event Node)) = [].
Proof. reflexivity. Qed.

Lemma errors_nil : errors (@nil (Event Node)) = [].
Proof. reflexivity. Qed.

Lemma visits_nil : visits (@nil (Event Node)) = [].
Proof. reflexivity. Qed.

Lemma visiteds_nil : visiteds (@nil (Event Node)) = [].
Proof. reflexivity. Qed.

Lemma robots_answers_nil : robots_answers (@nil (Event Node)) = [].
Proof. reflexivity. Qed.

Lemma declined_nil : declined (@nil (Event Node)) = false.
Proof. reflexivity. Qed.

Lemma passive_pushes tr : forallb (@passive Node) tr = true -> pushes tr = [].
Proof.
  induction tr as [|e tr IH]; cbn; [reflexivity|].
  intros H. apply andb_true_iff in H. destruct H as [He Ht].
  destruct e; cbn in *; try discriminate; auto.
Qed.

Lemma passive_fetches tr :
  forallb (@passive Node) tr = true -> fetches tr = [].
Proof.
  induction tr as [|e tr IH]; cbn; [reflexivity|].
  intros H. apply andb_true_iff in H. destruct H as [He Ht].
  destruct e; cbn in *; try discriminate; auto.
Qed.

Lemma passive_declined tr :
  forallb (@passive Node) tr = true -> declined tr = false.
Proof.
  induction tr as [|e tr IH]; cbn; [reflexivity|].
  intros H. apply andb_true_iff in H. destruct H as [He Ht].
  destruct e; cbn in *; try discriminate; auto.
Qed.

Lemma silent_facts tr :
  forallb (@silent Node) tr = true ->
  pushes tr = [] /\ fetches tr = [] /\ errors tr = [] /\ visits tr = [] /\
  visiteds tr = [] /\ declined tr = false /\
  forallb (@passive Node) tr = true /\ robots_answers tr = [].
Proof.
  induction tr as [|e tr IH]; cbn; [repeat split|].
  intros H. apply andb_true_iff in H. destruct H as [He Ht].
  destruct e; cbn in *; try discriminate; auto.
Qed.

(** The final response only depends on the fetches. *)
Lemma final_response_fetches a b :
  fetches a = fetches b -> final_response a = final_response b.
Proof. unfold final_response. intros ->. reflexivity. Qed.

End TraceFacts.

Create Rewrite HintDb trace.

#[local] Hint Rewrite pushes_app fetches_app errors_app visits_app
  visiteds_app ignored_app declined_app passive_app robots_answers_app
  pushes_cons fetches_cons errors_cons visits_cons visiteds_cons
  robots_answers_cons declined_cons pushes_nil fetches_nil errors_nil
  visits_nil visiteds_nil robots_answers_nil declined_nil : trace.

(** Compute the observations on a list of events, using the facts at hand
    about its parts, without unfolding the observations themselves. *)
Ltac observe :=
  repeat (progress
            (autorewrite with trace;
             repeat match goal with
                    | E : pushes ?l = _ |- _ => is_var l; rewrite E
                    | E : fetches ?l = _ |- _ => is_var l; rewrite E
                    | E : errors ?l = _ |- _ => is_var l; rewrite E
                    | E : visits ?l = _ |- _ => is_var l; rewrite E
                    | E : visiteds ?l = _ |- _ => is_var l; rewrite E
                    | E : robots_answers ?l = _ |- _ => is_var l; rewrite E
                    | E : declined ?l = _ |- _ => is_var l; rewrite E
                    end;
             cbv beta iota; cbn [app orb]; rewrite ?app_nil_r)).

Section Proofs.

Variables W Group RobotsData Node : Type.
Variable extender : Extender W Node.
Variable logFunc : LogFlags -> string -> list LogArg -> Hook W unit.
Variable lib : Library Group RobotsData Node.
Variable isRobotsTxtUrl : option URL -> bool.

Implicit Types m : Machine W Group.
Implicit Types tr : list (Event Node).

(** The methods are kept folded when a run is simplified; each is unfolded
    where its own body is examined. *)
#[local] Arguments fetchAttempt : simpl never.
#[local] Arguments fetchUrl : simpl never.
#[local] Arguments visitUrl : simpl never.
#[local] Arguments processLinks : simpl never.
#[local] Arguments getRobotsTxtGroup : simpl never.
#[local] Arguments requestUrl : simpl never.
#[local] Arguments requestRobotsTxt : simpl never.
#[local] Arguments isAllowedPerRobotsPolicies : simpl never.
#[local] Arguments processCommand : simpl never.

(** *** processLinks *)

Lemma processLinks_loop_spec doc urls : forall result m r m' tr,
  processLinks_loop logFunc lib doc urls result m = (r, m', tr) ->
  r = result ++ flat_map (harvest_one lib (doc_Url doc)) urls /\
  quiet_step m m' tr /\
  errors tr = [] /\ visits tr = [] /\ visiteds tr = [] /\
  ignored tr = flat_map (ignored_one lib) urls.
Proof.
  induction urls as [|s rest IH]; intros result m r m' tr H;
    cbn [processLinks_loop] in H.
  - unfold ret in H. finish_run H. rewrite app_nil_r.
    unfold quiet_step. cbn. repeat split; lia.
  - unfold harvest_one at 1, ignored_one at 1. cbn [flat_map].
    destruct ((0 <? String.length s)%nat && negb (String.prefix "#" s)).
    + destruct (url_Parse lib s) as [parsed|e].
      * apply IH in H. rewrite <- app_assoc in H. exact H.
      * exec_in H. finish_run H.
        match goal with E : processLinks_loop _ _ _ _ _ _ = _ |- _ =>
          apply IH in E;
          destruct E as (-> & (Hw & Hs & Hi & Hc & Hp) & He & Hv & Hd & Hg)
        end.
        unfold quiet_step, errors, visits, visiteds, ignored in *. cbn in *.
        rewrite Hw, Hs, Hi, Hp, He, Hv, Hd, Hg.
        repeat split; lia.
    + apply IH in H. exact H.
Qed.

Lemma processLinks_spec doc m r m' tr :
  processLinks logFunc lib doc m = (r, m', tr) ->
  r = flat_map (harvest_one lib (doc_Url doc)) (anchorHrefs lib (doc_node doc))
  /\ quiet_step m m' tr /\
  errors tr = [] /\ visits tr = [] /\ visiteds tr = [] /\
  ignored tr = flat_map (ignored_one lib) (anchorHrefs lib (doc_node doc)).
Proof.
  unfold processLinks. intros H. apply processLinks_loop_spec in H. exact H.
Qed.

(** *** visitUrl *)

Lemma visitUrl_spec res m h m' tr :
  visitUrl extender logFunc lib res m = (h, m', tr) ->
  quiet_step m m' tr /\
  visiteds tr = [(Request_URL res, h)] /\
  (exists res' doc, visits tr = [(res', doc)]) /\
  (forall e, body_err (RespBody res) = Some e ->
     visits tr = [(res, None)] /\
     In (newCrawlError e CekReadBody (Some (Request_URL res))) (errors tr)).
Proof.
  intros H. unfold visitUrl, ioutil_ReadAll in H. exec_in H.
  all: finish_run H.
  all: try match goal with E : processLinks _ _ _ _ = _ |- _ =>
         apply processLinks_spec in E;
         destruct E as (_ & (Hw & Hs & Hi & Hc & Hp) & He & Hv & Hd & _)
       end.
  all: unfold quiet_step, errors, visits, visiteds in *; cbn in *.
  all: autorewrite with trace; rewrite ?flat_map_app, ?forallb_app; cbn.
  all: rewrite ?Hw, ?Hs, ?Hi, ?Hp, ?He, ?Hv, ?Hd; cbn.
  all: repeat split; try lia; eauto; try congruence.
  all: left; congruence.
Qed.

(** *** getRobotsTxtGroup *)

Lemma getRobotsTxtGroup_spec b res m g m' tr :
  getRobotsTxtGroup extender logFunc lib b res m = (g, m', tr) ->
  quiet_step m m' tr /\ visits tr = [] /\ visiteds tr = [] /\
  robots_answers tr = [] /\
  match
    match res with
    | Some r =>
        match body_err (RespBody r) with
        | Some e => inr e
        | None => robotstxt_FromBytes lib (body_data (RespBody r))
        end
    | None => robotstxt_FromBytes lib b
    end
  with
  | inr e => g = None /\ errors tr = [newCrawlError e CekParseRobots None]
  | inl data =>
      g = FindGroup lib data (robotUserAgent (wk m)) /\ errors tr = []
  end.
Proof.
  intros H. unfold getRobotsTxtGroup, ioutil_ReadAll in H. exec_in H.
  all: finish_run H.
  all: unfold quiet_step; cbn.
  all: repeat match goal with E : _ = _ |- _ => rewrite E end.
  all: repeat split; try lia; try congruence.
Qed.

(** *** fetchUrl *)

(** One pass of the loop: the events are silent ones, then the fetch, then,
    if it failed, the error report and the work result. *)
Lemma fetchAttempt_inv u agent head m r m' tr :
  fetchAttempt extender logFunc lib isRobotsTxtUrl u agent head m
    = (r, m', tr) ->
  exists tr0 start finish d fr,
    forallb (@silent Node) tr0 = true /\
    clock m <= start /\ start <= finish /\ finish <= clock m' /\
    match wait (wk m) with Some t => t <= start | None => True end /\
    same_config (wk m) (wk m') /\
    robotsGroup (wk m') = robotsGroup (wk m) /\
    lastCrawlDelay (wk m') = d /\
    stopAt m' = stopAt m /\ inbox m' = inbox m /\
    match fr with
    | inl res =>
        r = Some res /\
        tr = tr0 ++ [EvFetch u agent head start finish d fr] /\
        wait (wk m') = Some (finish + d) /\
        lastFetch (wk m') =
          Some (mkFetchInfo (time_Sub start finish) (StatusCode res) head
                  (isRobotsTxtUrl (Some u)))
    | inr e =>
        r = None /\
        tr = tr0 ++
             EvFetch u agent head start finish d fr
             :: EvError (newCrawlError e CekFetch (Some u))
             :: EvLog LogError "ERROR fetching %s: %s\n"
                  [ArgURL u; ArgString e]
             :: (if isRobotsTxtUrl (Some u) then []
                 else [EvPush (mkWorkerResponse (host (wk m)) false (Some u)
                                 [] false)]) /\
        wait (wk m') = None /\
        lastFetch (wk m') = None
    end.
Proof.
  intros H. unfold fetchAttempt in H. exec_in H.
  all: match type of H with
       | (_, _, ?a :: ?b :: ?c :: _) = _ => exists [a; b; c]
       end.
  all: finish_run H.
  all: match goal with
       | E : Fetch _ _ _ _ ?t _ = (?fr, _, ?n) |- _ =>
           exists t, (t + Z.of_N n); eexists; exists fr
       end.
  all: unfold same_config, time_After; cbn.
  all: repeat match goal with
              | E : wait _ = _ |- _ => rewrite E
              end; cbn.
  all: destruct (isRobotsTxtUrl (Some u)); try discriminate.
  all: repeat split; try lia; try reflexivity; try assumption.
Qed.

Ltac easy_eq :=
  first [ reflexivity | assumption | congruence
        | intros; first [reflexivity | discriminate] ].

(** Replace a run of [fetchAttempt] by what [fetchAttempt_inv] says of
    it. *)
Ltac use_fetchAttempt :=
  match goal with
  | E : fetchAttempt _ _ _ _ _ _ _ _ = _ |- _ =>
      apply fetchAttempt_inv in E;
      let Hs := fresh "Hs" in
      let fr := fresh "fr" in
      let Hcase := fresh "Hcase" in
      let Hres := fresh "Hres" in
      destruct E as (? & ? & ? & ? & fr & Hs & ? & ? & ? & ? & ? & ? & ?
                     & ? & ? & Hcase);
      apply silent_facts in Hs;
      destruct Hs as (? & ? & ? & ? & ? & ? & ? & ?);
      destruct fr; destruct Hcase as (Hres & -> & ? & ?);
      try discriminate Hres; try (injection Hres as <-)
  end.

(** What [fetchUrl] can return and what it has then done: [nil, false]
    after a fetch that failed, the HEAD response and [false] after a
    refusal to GET, the final response and [true] otherwise. *)
Lemma fetchUrl_inv u agent head m r m' tr :
  fetchUrl extender logFunc lib isRobotsTxtUrl u agent head m = (r, m', tr) ->
  same_config (wk m) (wk m') /\
  robotsGroup (wk m') = robotsGroup (wk m) /\
  stopAt m' = stopAt m /\ inbox m' = inbox m /\ clock m <= clock m' /\
  spaced_from (wait (wk m)) (fetches tr) /\
  wait (wk m') = last_guard (wait (wk m)) (fetches tr) /\
  Forall (fun f => fr_start f <= fr_finish f) (fetches tr) /\
  visits tr = [] /\ visiteds tr = [] /\ robots_answers tr = [] /\
  match r with
  | (None, false) =>
      exists l f e,
        fetches tr = l ++ [f] /\ fr_result f = inr e /\
        forallb fr_ok l = true /\
        lastFetch (wk m') = None /\
        errors tr = [newCrawlError e CekFetch (Some u)] /\
        pushes tr =
          (if isRobotsTxtUrl (Some u) then []
           else [mkWorkerResponse (host (wk m)) false (Some u) [] false]) /\
        declined tr = false /\
        (head = false -> l = [])
  | (Some res, false) =>
      head = true /\ declined tr = true /\ pushes tr = [] /\
      errors tr = [] /\
      exists f, fetches tr = [f] /\ fr_head f = true /\ fr_result f = inl res
  | (Some res, true) =>
      declined tr = false /\ pushes tr = [] /\ errors tr = [] /\
      exists l f,
        fetches tr = l ++ [f] /\ fr_head f = false /\
        fr_result f = inl res /\ forallb fr_ok l = true /\
        (head = false -> l = [])
  | (None, true) => False
  end.
Proof.
  intros H. unfold fetchUrl in H. exec_in H.
  all: finish_run H.
  all: repeat use_fetchAttempt.
  all: unfold same_config in *; trace_norm.
  all: repeat match goal with
       | E : wait _ = Some _ |- _ => rewrite E in *
       | E : wait _ = None |- _ => rewrite E in *
       end; cbn.
  all: repeat match goal with
       | E : _ /\ _ |- _ => destruct E
       end.
  all: destruct (isRobotsTxtUrl (Some u)); cbn.
  all: repeat split; try lia; try congruence.
  all: try solve [repeat constructor; cbn; lia].
  all: first
    [ solve [eexists [], _; cbn; repeat split; easy_eq]
    | solve [eexists [], _, _; cbn; repeat split; easy_eq]
    | solve [eexists [_], _; cbn; repeat split; easy_eq]
    | solve [eexists [_], _, _; cbn; repeat split; easy_eq]
    | solve [eexists; cbn; repeat split; easy_eq] ].
Qed.

(** The loop as written makes the two passes of [fetchUrl] and never needs
    a third. *)
Lemma fetchLoop_fetchUrl n u agent head m :
  fetchLoop extender logFunc lib isRobotsTxtUrl (S (S n)) u agent head [] m =
  (let '(r, m', tr) :=
     fetchUrl extender logFunc lib isRobotsTxtUrl u agent head m in
   (Some r, m', tr)).
Proof.
  cbn [fetchLoop]. unfold fetchUrl, bind, ret, emit, call. cbn.
  destruct (fetchAttempt _ _ _ _ u agent head m) as [[[res|] m1] t1]; cbn;
    [|reflexivity].
  destruct head; cbn; [|reflexivity].
  destruct (RequestGet extender res (clock m1) (world m1)) as [[[|] w'] dt];
    cbn; [|reflexivity].
  destruct (fetchAttempt _ _ _ _ u agent false _) as [[[res2|] m2] t2]; cbn;
    reflexivity.
Qed.

(** *** requestUrl *)

(** The three ways a run of [requestUrl] can go: a fetch failed; the GET
    was declined after the HEAD; or there is a final response, which is
    visited when its status is 2xx and reported as an error otherwise. *)
Lemma requestUrl_cases u head m x m' tr :
  requestUrl extender logFunc lib isRobotsTxtUrl u head m = (x, m', tr) ->
  (exists l f e,
     fetches tr = l ++ [f] /\ fr_result f = inr e /\
     forallb fr_ok l = true /\ lastFetch (wk m') = None /\
     errors tr = [newCrawlError e CekFetch (Some u)] /\
     pushes tr =
       (if isRobotsTxtUrl (Some u) then []
        else [mkWorkerResponse (host (wk m)) false (Some u) [] false]) /\
     declined tr = false /\ visits tr = [] /\ visiteds tr = [])
  \/
  (head = true /\ declined tr = true /\ pushes tr = [] /\ errors tr = [] /\
   visits tr = [] /\ visiteds tr = [] /\
   exists f res,
     fetches tr = [f] /\ fr_head f = true /\ fr_result f = inl res)
  \/
  (exists l f res,
     fetches tr = l ++ [f] /\ fr_head f = false /\ fr_result f = inl res /\
     forallb fr_ok l = true /\ declined tr = false /\
     if is2xx (StatusCode res) then
       exists harvested res' doc,
         pushes tr =
           (if isRobotsTxtUrl (Some u) then []
            else [mkWorkerResponse (host (wk m)) true (Some u) harvested
                    false]) /\
         visits tr = [(res', doc)] /\
         visiteds tr = [(Request_URL res, harvested)] /\
         (forall e, body_err (RespBody res) = Some e ->
            res' = res /\ doc = None /\
            In (newCrawlError e CekReadBody (Some (Request_URL res)))
              (errors tr))
     else
       pushes tr =
         (if isRobotsTxtUrl (Some u) then []
          else [mkWorkerResponse (host (wk m)) false (Some u) [] false]) /\
       visits tr = [] /\ visiteds tr = [] /\
       errors tr =
         [newCrawlErrorMessage (Status res) CekHttpStatusCode (Some u)]).
Proof.
  intros H. unfold requestUrl in H. exec_in H.
  all: finish_run H.
  all: match goal with
       | E : fetchUrl _ _ _ _ _ _ _ _ = _ |- _ =>
           apply fetchUrl_inv in E;
           destruct E as (Hcfg & _ & _ & _ & _ & _ & _ & _ & Hv & Hvd & _ &
                          Hcase)
       end.
  all: try contradiction.
  all: destruct (isRobotsTxtUrl (Some u)) eqn:Hrob; try discriminate.
  all: try match goal with
       | E : visitUrl _ _ _ _ _ = _ |- _ =>
           apply visitUrl_spec in E;
           destruct E as ((Hw & _ & _ & _ & Hpas) & Hvisited & (res' & doc
                          & Hvisit) & Hbody);
           pose proof (passive_pushes _ Hpas) as Hpp;
           pose proof (passive_fetches _ Hpas) as Hpf;
           pose proof (passive_declined _ Hpas) as Hpd
       end.
  all: try match type of Hcase with
           | if ?b then _ else _ => destruct b; [contradiction|]
           end.
  all: rewrite ?app_nil_r.
  all: lazymatch type of Hcase with
       | ex _ =>
           left; destruct Hcase as (l2 & f & e & Hcase);
           exists l2, f, e; intuition
       | _ = true /\ _ =>
           right; left; destruct Hcase as (? & ? & ? & ? & f & ?);
           repeat (apply conj; [assumption|]); exists f, r; assumption
       | _ =>
           right; right;
           destruct Hcase as (Hd & Hp & He & l2 & f & Hf & Hh & Hr & Hok &
                              _);
           exists l2, f, r;
           destruct Hcfg as (Hhost & _)
       end.
  all: match goal with E : is2xx _ = _ |- _ => rewrite E; cbv iota end.
  all: cbn [wk]; rewrite ?Hw, ?Hhost.
  all: autorewrite with trace.
  all: rewrite ?Hd, ?Hp, ?He, ?Hf, ?Hv, ?Hvd, ?Hpp, ?Hpf, ?Hpd, ?Hvisited,
         ?Hvisit.
  all: cbn; rewrite ?app_nil_r.
  all: repeat apply conj; try assumption; try reflexivity.
  all: exists l1, res', doc; repeat apply conj; try reflexivity.
  all: intros e' He'; destruct (Hbody e' He') as (Hv1 & Hin);
       rewrite Hvisit in Hv1.
  all: repeat apply conj; [congruence | congruence | exact Hin].
Qed.

(** *** Pacing of fetches *)

Lemma spaced_from_app l1 : forall g l2,
  spaced_from g (l1 ++ l2) <->
  spaced_from g l1 /\ spaced_from (last_guard g l1) l2.
Proof.
  induction l1 as [|f l1 IH]; intros g l2; cbn.
  - tauto.
  - rewrite IH. tauto.
Qed.

Lemma last_guard_app l1 : forall g l2,
  last_guard g (l1 ++ l2) = last_guard (last_guard g l1) l2.
Proof.
  induction l1 as [|f l1 IH]; intros g l2; cbn; [reflexivity|apply IH].
Qed.

Lemma same_config_refl (w : worker Group) : same_config w w.
Proof. unfold same_config. repeat split. Qed.

Lemma same_config_trans (w1 w2 w3 : worker Group) :
  same_config w1 w2 -> same_config w2 w3 -> same_config w1 w3.
Proof. unfold same_config. intuition congruence. Qed.

Lemma paced_trans m m1 m2 (t1 t2 : list (Event Node)) :
  paced m m1 t1 -> paced m1 m2 t2 -> paced m m2 (t1 ++ t2).
Proof.
  intros (Hc1 & Hs1 & Hi1 & Ht1 & Hsp1 & Hw1 & Hf1)
         (Hc2 & Hs2 & Hi2 & Ht2 & Hsp2 & Hw2 & Hf2).
  unfold paced. rewrite fetches_app, last_guard_app.
  refine (conj _ (conj _ (conj _ (conj _ (conj _ (conj _ _)))))).
  - eapply same_config_trans; eassumption.
  - congruence.
  - congruence.
  - lia.
  - apply spaced_from_app. rewrite <- Hw1. split; assumption.
  - rewrite <- Hw1. exact Hw2.
  - apply Forall_app. split; assumption.
Qed.

Lemma paced_quiet m m' tr : quiet_step m m' tr -> paced m m' tr.
Proof.
  intros (Hw & Hs & Hi & Hc & Hp). unfold paced.
  rewrite (passive_fetches _ Hp), Hw. cbn.
  repeat split; auto using same_config_refl.
Qed.

Lemma Paced_ret A (a : A) : Paced (ret Node (W:=W) (Group:=Group) a).
Proof.
  intros m a' m' tr H. unfold ret in H. finish_run H.
  apply paced_quiet. unfold quiet_step. cbn. repeat split; lia.
Qed.

Lemma Paced_bind A B (c : M W Group Node A) (k : A -> M W Group Node B) :
  Paced c -> (forall a, Paced (k a)) -> Paced (bind c k).
Proof.
  intros Hc Hk m b m' tr H. unfold bind in H.
  destruct (c m) as [[a m1] t1] eqn:E1.
  destruct (k a m1) as [[b' m2] t2] eqn:E2.
  finish_run H. eapply paced_trans; [eapply Hc | eapply Hk]; eassumption.
Qed.

Lemma Paced_call A (h : Hook W A) : Paced (call Node (Group:=Group) h).
Proof.
  intros m a m' tr H. unfold call in H.
  destruct (h (clock m) (world m)) as [[a' w'] dt]. finish_run H.
  apply paced_quiet. unfold quiet_step. cbn. repeat split; lia.
Qed.

Lemma Paced_emit (e : Event Node) :
  fetches [e] = [] -> Paced (emit (W:=W) (Group:=Group) e).
Proof.
  intros He m a m' tr H. unfold emit in H. finish_run H.
  unfold paced. rewrite He. cbn.
  repeat split; auto using same_config_refl; lia.
Qed.

Lemma Paced_this : Paced (this (W:=W) (Group:=Group) Node).
Proof.
  intros m a m' tr H. unfold this in H. finish_run H.
  apply paced_quiet. unfold quiet_step. cbn. repeat split; lia.
Qed.

Lemma Paced_time_Now : Paced (time_Now (W:=W) (Group:=Group) Node).
Proof.
  intros m a m' tr H. unfold time_Now in H. finish_run H.
  apply paced_quiet. unfold quiet_step. cbn. repeat split; lia.
Qed.

Lemma Paced_poll_stop : Paced (poll_stop (W:=W) (Group:=Group) Node).
Proof.
  intros m a m' tr H. unfold poll_stop in H. finish_run H.
  apply paced_quiet. unfold quiet_step. cbn. repeat split; lia.
Qed.

Lemma Paced_receive_timer t :
  Paced (receive_timer (W:=W) (Group:=Group) Node t).
Proof.
  intros m a m' tr H. unfold receive_timer in H. finish_run H.
  apply paced_quiet. unfold quiet_step. cbn. repeat split; lia.
Qed.

Lemma Paced_set_robotsGroup (g : option Group) :
  Paced (update (W:=W) Node (set_robotsGroup g)).
Proof.
  intros m a m' tr H. unfold update in H. finish_run H.
  unfold paced, same_config. cbn. repeat split; try lia. constructor.
Qed.

Lemma Paced_log flag format args :
  Paced (log (Group:=Group) Node logFunc flag format args).
Proof.
  unfold log. apply Paced_bind; [apply Paced_call|].
  intros _. apply Paced_emit. reflexivity.
Qed.

Lemma Paced_ext_Error e :
  Paced (ext_Error (Group:=Group) extender e).
Proof.
  unfold ext_Error. apply Paced_bind; [apply Paced_call|].
  intros _. apply Paced_emit. reflexivity.
Qed.

Lemma Paced_fetchUrl u agent head :
  Paced (fetchUrl extender logFunc lib isRobotsTxtUrl u agent head).
Proof.
  intros m r m' tr H. apply fetchUrl_inv in H. unfold paced. tauto.
Qed.

Lemma Paced_visitUrl res : Paced (visitUrl extender logFunc lib res).
Proof.
  intros m r m' tr H. apply visitUrl_spec in H. apply paced_quiet. tauto.
Qed.

Lemma Paced_getRobotsTxtGroup b res :
  Paced (getRobotsTxtGroup (Group:=Group) extender logFunc lib b res).
Proof.
  intros m r m' tr H. apply getRobotsTxtGroup_spec in H.
  apply paced_quiet. tauto.
Qed.

(** Pacing follows the structure of a method: sequencing, case analysis,
    and the facts above about the steps. *)
Ltac paced_step :=
  first
    [ apply Paced_ret | apply Paced_call | apply Paced_log
    | apply Paced_ext_Error | apply Paced_this | apply Paced_time_Now
    | apply Paced_poll_stop | apply Paced_receive_timer
    | apply Paced_set_robotsGroup | apply Paced_fetchUrl
    | apply Paced_visitUrl | apply Paced_getRobotsTxtGroup
    | apply Paced_emit; reflexivity
    | apply Paced_bind; [|intros ?]
    | match goal with
      | |- Paced (match ?x with _ => _ end) => destruct x
      end ].

Lemma Paced_sendResponse u visited harvested idleDeath :
  Paced (sendResponse (W:=W) (Group:=Group) Node isRobotsTxtUrl u visited
           harvested idleDeath).
Proof. unfold sendResponse. repeat paced_step. Qed.

Lemma Paced_isAllowed u :
  Paced (isAllowedPerRobotsPolicies (W:=W) (Node:=Node) logFunc lib u).
Proof. unfold isAllowedPerRobotsPolicies. repeat paced_step. Qed.

Lemma Paced_requestUrl u head :
  Paced (requestUrl extender logFunc lib isRobotsTxtUrl u head).
Proof.
  unfold requestUrl.
  repeat first [apply Paced_sendResponse | paced_step].
Qed.

Lemma Paced_requestRobotsTxt u :
  Paced (requestRobotsTxt extender logFunc lib isRobotsTxtUrl u).
Proof.
  unfold requestRobotsTxt.
  repeat first [apply Paced_sendResponse | paced_step].
Qed.

Lemma Paced_processCommand cmd :
  Paced (processCommand extender logFunc lib isRobotsTxtUrl cmd).
Proof.
  unfold processCommand.
  repeat first
    [ apply Paced_sendResponse | apply Paced_isAllowed
    | apply Paced_requestUrl | apply Paced_requestRobotsTxt | paced_step ].
Qed.

Lemma Paced_processBatch batch :
  Paced (processBatch extender logFunc lib isRobotsTxtUrl batch).
Proof.
  induction batch as [|cmd rest IH]; cbn [processBatch].
  - apply Paced_ret.
  - repeat first [apply Paced_processCommand | exact IH | paced_step].
Qed.

(** *** requestRobotsTxt *)

(** A run of [requestRobotsTxt] pushes nothing and visits nothing.  It asks
    [RequestRobots] once; told not to fetch, it parses the cached bytes;
    told to fetch, it either fails to, or parses what it fetched.  Parsing
    sets the policy, to none when the bytes cannot be read or parsed. *)
Lemma requestRobotsTxt_cases u m x m' tr :
  requestRobotsTxt extender logFunc lib isRobotsTxtUrl u m = (x, m', tr) ->
  isRobotsTxtUrl (Some u) = true ->
  pushes tr = [] /\ declined tr = false /\ visits tr = [] /\
  visiteds tr = [] /\
  exists rr, robots_answers tr = [rr] /\
    if fst rr then
      (exists f e,
         fetches tr = [f] /\ fr_result f = inr e /\
         lastFetch (wk m') = None /\
         errors tr = [newCrawlError e CekFetch (Some u)])
      \/
      (exists f res,
         fetches tr = [f] /\ fr_head f = false /\ fr_result f = inl res /\
         match
           match body_err (RespBody res) with
           | Some e => inr e
           | None => robotstxt_FromBytes lib (body_data (RespBody res))
           end
         with
         | inr e =>
             robotsGroup (wk m') = None /\
             errors tr = [newCrawlError e CekParseRobots None]
         | inl data =>
             robotsGroup (wk m') =
               FindGroup lib data (robotUserAgent (wk m)) /\
             errors tr = []
         end)
    else
      fetches tr = [] /\
      match robotstxt_FromBytes lib (snd rr) with
      | inr e =>
          robotsGroup (wk m') = None /\
          errors tr = [newCrawlError e CekParseRobots None]
      | inl data =>
          robotsGroup (wk m') = FindGroup lib data (robotUserAgent (wk m)) /\
          errors tr = []
      end.
Proof.
  intros H Hrob. unfold requestRobotsTxt in H. exec_in H.
  all: finish_run H.
  all: try match goal with
       | E : fetchUrl _ _ _ _ _ _ _ _ = _ |- _ =>
           apply fetchUrl_inv in E;
           destruct E as ((_ & _ & _ & Hua & _) & _ & _ & _ & _ & _ & _ & _
                          & Hv & Hvd & Hra & Hcase)
       end.
  all: try match goal with
       | E : getRobotsTxtGroup _ _ _ _ _ _ = _ |- _ =>
           apply getRobotsTxtGroup_spec in E;
           destruct E as ((Hw & _ & _ & _ & Hpas) & Hgv & Hgvd & Hgra &
                          Hparse);
           pose proof (passive_pushes _ Hpas) as Hpp;
           pose proof (passive_fetches _ Hpas) as Hpf;
           pose proof (passive_declined _ Hpas) as Hpd
       end.
  all: try contradiction.
  all: try match type of Hcase with
           | if ?b then _ else _ => destruct b; [contradiction|]
           end.
  all: cbn [wk] in *.
  all: try destruct Hcase as (l2 & f & e & Hf & Hr & Hok & Hlf & He & Hp & Hd
                              & Hl2).
  all: try destruct Hcase as (Hd & Hp & He & l2 & f & Hf & Hh & Hr & Hok &
                              Hl2).
  all: try (destruct Hcase as (Hh & _); discriminate Hh).
  all: try (rewrite (Hl2 eq_refl) in Hf; cbn [app] in Hf).
  all: rewrite ?Hrob in *.
  all: match goal with
       | E : RequestRobots _ _ _ _ _ = (?p, _, _), E' : fst ?p = _ |- _ =>
           refine (conj _ (conj _ (conj _ (conj _ (ex_intro _ p _)))));
           [observe; reflexivity .. |]; rewrite E'
       end.
  all: split; [observe; reflexivity|].
  - (* fetched *)
    right. exists f, r. observe.
    repeat apply conj; try assumption; try reflexivity.
    destruct (body_err (RespBody r));
      [|destruct (robotstxt_FromBytes lib (body_data (RespBody r)))];
      destruct Hparse as (-> & Herr); observe; split; try reflexivity.
    cbn. congruence.
  - (* the fetch failed *)
    left. exists f, e. observe.
    repeat apply conj; try assumption; reflexivity.
  - (* cached bytes *)
    split; [observe; reflexivity|].
    destruct (robotstxt_FromBytes lib (snd p)); destruct Hparse as (-> & Herr);
      observe; split; reflexivity.
Qed.

(** *** processCommand *)

(** A command is logged, then handed to [requestRobotsTxt] when it is the
    robots.txt command, to [requestUrl] when the policy allows it, and is
    otherwise reported as disallowed. *)
Lemma processCommand_inv cmd m x m' tr :
  processCommand extender logFunc lib isRobotsTxtUrl cmd m = (x, m', tr) ->
  exists tr0 m1 tr1,
    tr = tr0 ++ tr1 /\ forallb (@silent Node) tr0 = true /\ wk m1 = wk m /\
    ((isRobotsTxtUrl (Some (cmd_u cmd)) = true /\
      requestRobotsTxt extender logFunc lib isRobotsTxtUrl (cmd_u cmd) m1
        = (x, m', tr1))
     \/
     (isRobotsTxtUrl (Some (cmd_u cmd)) = false /\
      requestUrl extender logFunc lib isRobotsTxtUrl (cmd_u cmd)
        (cmd_head cmd) m1 = (x, m', tr1))
     \/
     (isRobotsTxtUrl (Some (cmd_u cmd)) = false /\ wk m' = wk m /\
      tr1 = [EvDisallowed (cmd_u cmd);
             EvPush (mkWorkerResponse (host (wk m)) false
                       (Some (cmd_u cmd)) [] false)])).
Proof.
  intros H. unfold processCommand, isAllowedPerRobotsPolicies in H.
  exec_in H.
  all: finish_run H; rewrite ?app_nil_r.
  all: lazymatch goal with
       | E : requestRobotsTxt _ _ _ _ _ ?m1 = (_, _, ?t)
         |- exists _ _ _, ?e :: _ = _ /\ _ =>
           exists [e], m1, t; repeat apply conj; try reflexivity;
           left; split; [reflexivity|exact E]
       | E : requestUrl _ _ _ _ _ _ ?m1 = (_, _, ?t)
         |- exists _ _ _, ?e :: _ = _ /\ _ =>
           exists [e], m1, t; repeat apply conj; try reflexivity;
           right; left; split; [reflexivity|exact E]
       | |- exists _ _ _, ?e1 :: ?e2 :: ?t = _ /\ _ =>
           exists [e1; e2], m, t; repeat apply conj; try reflexivity;
           right; right; repeat apply conj; reflexivity
       end.
Qed.

(** Split a run of [processCommand] into its three routes, with the facts
    about the silent events that come first. *)
Ltac command_routes H :=
  apply processCommand_inv in H;
  let tr0 := fresh "tr0" in
  let m1 := fresh "m1" in
  let tr1 := fresh "tr1" in
  let Hs := fresh "Hs" in
  let Hwk := fresh "Hwk" in
  let Hroute := fresh "Hroute" in
  destruct H as (tr0 & m1 & tr1 & -> & Hs & Hwk & Hroute);
  apply silent_facts in Hs;
  destruct Hs as (? & ? & ? & ? & ? & ? & ? & ?);
  destruct Hroute as [(Hrob & Hrun) | [(Hrob & Hrun) | (Hrob & Hsame & ->)]];
  [ apply requestRobotsTxt_cases in Hrun; [|exact Hrob]
  | apply requestUrl_cases in Hrun;
    destruct Hrun as [Hfail | [Hdecl | Hfinal]]
  | ];
  rewrite ?Hwk in *.

(** ** The claims *)

(** C1 (as amended).  A command that is not the robots.txt command yields
    exactly one work result, for its own URL and host and without the
    idle-death flag, unless its GET was declined after the HEAD, in which
    case it yields none; the robots.txt command yields none. *)
Theorem C1_one_result_except_robots_and_declined cmd m x m' tr :
  processCommand extender logFunc lib isRobotsTxtUrl cmd m = (x, m', tr) ->
  if isRobotsTxtUrl (Some (cmd_u cmd)) || declined tr then pushes tr = []
  else
    exists visited harvested,
      pushes tr =
        [mkWorkerResponse (host (wk m)) visited (Some (cmd_u cmd)) harvested
           false].
Proof.
  intros H. command_routes H.
  - destruct Hrun as (Hp & Hd & _). rewrite Hrob. observe. reflexivity.
  - destruct Hfail as (l & f & e & _ & _ & _ & _ & _ & Hp & Hd & _).
    rewrite Hrob in *. observe. eauto.
  - destruct Hdecl as (_ & Hd & Hp & _). rewrite Hrob. observe. reflexivity.
  - destruct Hfinal as (l & f & res & _ & _ & _ & _ & Hd & Hfin).
    rewrite Hrob in *. observe.
    destruct (is2xx (StatusCode res)).
    + destruct Hfin as (h & _ & _ & Hp & _). rewrite Hp. eauto.
    + destruct Hfin as (Hp & _). rewrite Hp. eauto.
  - rewrite Hrob. observe. eauto.
Qed.

(** C2.  When the HEAD request of a command succeeded and [RequestGet]
    answered no, the HEAD is the only fetch of the command (no GET is
    issued) and no work result is pushed. *)
Theorem C2_declined_get_fetches_and_pushes_nothing cmd m x m' tr :
  processCommand extender logFunc lib isRobotsTxtUrl cmd m = (x, m', tr) ->
  declined tr = true ->
  pushes tr = [] /\
  exists f res,
    fetches tr = [f] /\ fr_head f = true /\ fr_result f = inl res.
Proof.
  intros H Hdec. command_routes H; revert Hdec; observe.
  - destruct Hrun as (_ & Hd & _). rewrite Hd. discriminate.
  - destruct Hfail as (l & f & e & _ & _ & _ & _ & _ & _ & Hd & _).
    rewrite Hd. discriminate.
  - destruct Hdecl as (_ & _ & Hp & _ & _ & _ & f & res & Hf & Hh & Hr).
    intros _. rewrite Hf. split; [exact Hp|]. exists f, res. auto.
  - destruct Hfinal as (l & f & res & _ & _ & _ & _ & Hd & _).
    rewrite Hd. discriminate.
  - discriminate.
Qed.

(** *** The control loop *)

Lemma Paced_enter_wait : Paced (@enter_wait W Group Node logFunc).
Proof.
  unfold enter_wait.
  repeat first [paced_step | match goal with
                             | |- Paced (if ?b then _ else _) => destruct b
                             end].
Qed.

Lemma Paced_run_case c :
  Paced (run_case extender logFunc lib isRobotsTxtUrl c).
Proof.
  destruct c; cbn [run_case];
    repeat first
      [apply Paced_sendResponse | apply Paced_processBatch | paced_step].
Qed.

Lemma select_takes_worker m idleChan c m1 :
  select_takes m idleChan c m1 -> wk m1 = wk m.
Proof. intros H. destruct H; reflexivity. Qed.

(** The earliest instant from which a communication can proceed is not in
    the past. *)
Lemma earliest_candidates m idleChan wake :
  earliest (candidates m idleChan) = Some wake -> clock m <= wake.
Proof.
  unfold candidates, ready_from.
  destruct (stopAt m), idleChan, (inbox m) as [|[? ?] ?]; cbn;
    intros [= <-]; lia.
Qed.

Lemma select_takes_clock m idleChan c m1 :
  select_takes m idleChan c m1 -> clock m <= clock m1.
Proof.
  intros H. destruct H; cbn; eapply earliest_candidates; eassumption.
Qed.

Lemma run_pass_spaced m c ph m' tr :
  run_pass extender logFunc lib isRobotsTxtUrl m c ph m' tr ->
  spaced_from (wait (wk m)) (fetches tr) /\
  wait (wk m') = last_guard (wait (wk m)) (fetches tr) /\
  Forall (fun f => fr_start f <= fr_finish f) (fetches tr).
Proof.
  intros [idleChan m0 tr0 m1 tr1 Henter Hsel Hcase ->].
  apply Paced_enter_wait in Henter.
  apply Paced_run_case in Hcase.
  apply select_takes_worker in Hsel.
  destruct Henter as (_ & _ & _ & _ & Hsp0 & Hw0 & Hf0).
  destruct Hcase as (_ & _ & _ & _ & Hsp1 & Hw1 & Hf1).
  rewrite Hsel in *.
  rewrite fetches_app, last_guard_app, <- Hw0.
  repeat apply conj.
  - apply spaced_from_app. rewrite <- Hw0. split; assumption.
  - exact Hw1.
  - apply Forall_app. split; assumption.
Qed.

Lemma passes_spaced m ph m' tr :
  passes extender logFunc lib isRobotsTxtUrl m ph m' tr ->
  spaced_from (wait (wk m)) (fetches tr) /\
  wait (wk m') = last_guard (wait (wk m)) (fetches tr) /\
  Forall (fun f => fr_start f <= fr_finish f) (fetches tr).
Proof.
  induction 1 as [m|m m1 tr1 c ph m2 tr2 _ IH Hpass].
  - cbn. repeat split. constructor.
  - apply run_pass_spaced in Hpass.
    destruct IH as (Hsp1 & Hw1 & Hf1). destruct Hpass as (Hsp2 & Hw2 & Hf2).
    rewrite fetches_app, last_guard_app, <- Hw1.
    repeat apply conj.
    + apply spaced_from_app. rewrite <- Hw1. split; assumption.
    + exact Hw2.
    + apply Forall_app. split; assumption.
Qed.

Lemma spaced_adjacent g l1 f1 f2 l2 :
  spaced_from g (l1 ++ f1 :: f2 :: l2) ->
  fr_ok f1 = true ->
  fr_finish f1 + fr_delay f1 <= fr_start f2.
Proof.
  intros H Hok. apply spaced_from_app in H. destruct H as (_ & H).
  cbn in H. unfold guard_after in H. rewrite Hok in H.
  destruct H as (_ & H & _). exact H.
Qed.

(** *** The events a method can produce *)

Section Emits.

Variable P : Event Node -> bool.

Lemma Emits_ret A (a : A) : Emits P (ret Node (W:=W) (Group:=Group) a).
Proof. intros m a' m' tr H. unfold ret in H. finish_run H. reflexivity. Qed.

Lemma Emits_bind A B (c : M W Group Node A) (k : A -> M W Group Node B) :
  Emits P c -> (forall a, Emits P (k a)) -> Emits P (bind c k).
Proof.
  intros Hc Hk m b m' tr H. unfold bind in H.
  destruct (c m) as [[a m1] t1] eqn:E1.
  destruct (k a m1) as [[b' m2] t2] eqn:E2.
  finish_run H. rewrite forallb_app, (Hc _ _ _ _ E1), (Hk _ _ _ _ _ E2).
  reflexivity.
Qed.

Lemma Emits_call A (h : Hook W A) : Emits P (call Node (Group:=Group) h).
Proof.
  intros m a m' tr H. unfold call in H.
  destruct (h (clock m) (world m)) as [[a' w'] dt]. finish_run H.
  reflexivity.
Qed.

Lemma Emits_emit (e : Event Node) :
  P e = true -> Emits P (emit (W:=W) (Group:=Group) e).
Proof.
  intros He m a m' tr H. unfold emit in H. finish_run H. cbn.
  rewrite He. reflexivity.
Qed.

Lemma Emits_this : Emits P (this (W:=W) (Group:=Group) Node).
Proof. intros m a m' tr H. unfold this in H. finish_run H. reflexivity. Qed.

Lemma Emits_update f : Emits P (update (W:=W) (Group:=Group) Node f).
Proof. intros m a m' tr H. unfold update in H. finish_run H. reflexivity. Qed.

Lemma Emits_time_Now : Emits P (time_Now (W:=W) (Group:=Group) Node).
Proof.
  intros m a m' tr H. unfold time_Now in H. finish_run H. reflexivity.
Qed.

Lemma Emits_poll_stop : Emits P (poll_stop (W:=W) (Group:=Group) Node).
Proof.
  intros m a m' tr H. unfold poll_stop in H. finish_run H. reflexivity.
Qed.

Lemma Emits_receive_timer t :
  Emits P (receive_timer (W:=W) (Group:=Group) Node t).
Proof.
  intros m a m' tr H. unfold receive_timer in H. finish_run H. reflexivity.
Qed.

End Emits.

(** The events of a method follow its structure. *)
Ltac emits_step :=
  first
    [ apply Emits_ret | apply Emits_call | apply Emits_this
    | apply Emits_update | apply Emits_time_Now | apply Emits_poll_stop
    | apply Emits_receive_timer
    | apply Emits_emit; reflexivity
    | apply Emits_bind; [|intros ?]
    | match goal with
      | |- Emits _ (if negb ?b then _ else _) =>
          destruct b eqn:?; cbn [negb]; try discriminate
      | |- Emits _ (if ?b then _ else _) => destruct b eqn:?
      | |- Emits _ (match ?x with _ => _ end) => destruct x eqn:?
      end ].

Ltac emits :=
  unfold log, ext_Error, sendResponse, setCrawlDelay; repeat emits_step.

Lemma Emits_processLinks_loop P doc urls : forall result,
  (forall a, P (EvLog LogIgnored "ignore on unparsable policy %s: %s\n" a)
             = true) ->
  Emits P (processLinks_loop (W:=W) (Group:=Group) logFunc lib doc urls
             result).
Proof.
  intros result HP. revert result.
  induction urls as [|s rest IH]; intros result; cbn [processLinks_loop].
  - apply Emits_ret.
  - unfold log.
    repeat first [apply IH | apply Emits_emit; apply HP | emits_step].
Qed.

(** *** The delay in force during a fetch *)

Lemma timed_app (a b : list (Event Node)) :
  timed a -> timed b -> timed (a ++ b).
Proof.
  unfold timed, delays, fetches. intros Ha Hb.
  rewrite !flat_map_app, !map_app, Ha, Hb. reflexivity.
Qed.

Lemma timed_inert tr : forallb (@inert Node) tr = true -> timed tr.
Proof.
  unfold timed, delays, fetches.
  induction tr as [|e tr IH]; [reflexivity|].
  intros H. cbn [forallb] in H. apply andb_true_iff in H.
  destruct H as [He Ht]. specialize (IH Ht).
  destruct e; cbn in He; try discriminate He; cbn; exact IH.
Qed.

Lemma Timed_inert A (c : M W Group Node A) : Emits (@inert Node) c -> Timed c.
Proof. intros H m a m' tr E. apply timed_inert. eapply H. exact E. Qed.

Lemma Timed_bind A B (c : M W Group Node A) (k : A -> M W Group Node B) :
  Timed c -> (forall a, Timed (k a)) -> Timed (bind c k).
Proof.
  intros Hc Hk m b m' tr H. unfold bind in H.
  destruct (c m) as [[a m1] t1] eqn:E1.
  destruct (k a m1) as [[b' m2] t2] eqn:E2.
  finish_run H. apply timed_app; [eapply Hc | eapply Hk]; eassumption.
Qed.

(** One pass of the loop of [fetchUrl] asks [ComputeDelay] once, and its
    fetch runs under the delay answered. *)
Lemma fetchAttempt_delay u agent head m r m' tr :
  fetchAttempt extender logFunc lib isRobotsTxtUrl u agent head m
    = (r, m', tr) ->
  exists c f,
    delays tr = [c] /\ fetches tr = [f] /\ fr_delay f = dr_result c /\
    lastCrawlDelay (wk m') = dr_result c /\
    dr_host c = host (wk m) /\
    dr_info c =
      mkDelayInfo (crawlDelay (wk m))
        match robotsGroup (wk m) with
        | Some g => CrawlDelay lib g
        | None => 0
        end
        (lastCrawlDelay (wk m)) /\
    dr_lastFetch c = lastFetch (wk m).
Proof.
  intros H. unfold fetchAttempt in H. exec_in H.
  all: finish_run H.
  all: destruct (isRobotsTxtUrl (Some u)); try discriminate.
  all: eexists; eexists; cbn.
  all: repeat match goal with
              | E : robotsGroup _ = _ |- _ => rewrite E
              end.
  all: repeat split; reflexivity.
Qed.

Lemma Timed_fetchAttempt u agent head :
  Timed (fetchAttempt extender logFunc lib isRobotsTxtUrl u agent head).
Proof.
  intros m r m' tr H. apply fetchAttempt_delay in H.
  destruct H as (c & f & Hd & Hf & Hfd & _). unfold timed.
  rewrite Hd, Hf. cbn. rewrite Hfd. reflexivity.
Qed.

Lemma Emits_processLinks_inert doc :
  Emits (@inert Node) (processLinks (W:=W) (Group:=Group) logFunc lib doc).
Proof.
  unfold processLinks. apply Emits_processLinks_loop. reflexivity.
Qed.

(** The delays in force follow the structure of a method: the passes of
    the loop of [fetchUrl] apart, no step computes a delay or fetches. *)
Ltac timed_step :=
  first
    [ apply Timed_fetchAttempt
    | apply Timed_inert;
      solve [repeat first [apply Emits_processLinks_inert | emits_step]]
    | apply Timed_bind; [|intros ?]
    | match goal with
      | |- Timed (if negb ?b then _ else _) => destruct b; cbn [negb]
      | |- Timed (if ?b then _ else _) => destruct b
      | |- Timed (match ?x with _ => _ end) => destruct x
      end ].

Lemma Timed_processCommand cmd :
  Timed (processCommand extender logFunc lib isRobotsTxtUrl cmd).
Proof.
  unfold processCommand, isAllowedPerRobotsPolicies, requestUrl,
    requestRobotsTxt, fetchUrl, visitUrl, getRobotsTxtGroup, processLinks,
    log, ext_Error, sendResponse.
  repeat timed_step.
Qed.

Lemma Timed_processBatch batch :
  Timed (processBatch extender logFunc lib isRobotsTxtUrl batch).
Proof.
  induction batch as [|cmd rest IH]; cbn [processBatch]; unfold log.
  - repeat timed_step.
  - repeat first [apply Timed_processCommand | exact IH | timed_step].
Qed.

Lemma Timed_enter_wait : Timed (@enter_wait W Group Node logFunc).
Proof. unfold enter_wait, log. repeat timed_step. Qed.

Lemma Timed_run_case c :
  Timed (run_case extender logFunc lib isRobotsTxtUrl c).
Proof.
  destruct c; cbn [run_case]; unfold log, sendResponse;
    repeat first [apply Timed_processBatch | timed_step].
Qed.

Lemma run_pass_timed m c ph m' tr :
  run_pass extender logFunc lib isRobotsTxtUrl m c ph m' tr -> timed tr.
Proof.
  intros [idleChan m0 tr0 m1 tr1 Henter Hsel Hcase ->].
  apply timed_app.
  - exact (Timed_enter_wait _ Henter).
  - exact (Timed_run_case _ _ Hcase).
Qed.

Lemma passes_timed m ph m' tr :
  passes extender logFunc lib isRobotsTxtUrl m ph m' tr -> timed tr.
Proof.
  induction 1 as [m|m m1 tr1 c ph m2 tr2 _ IH Hpass].
  - reflexivity.
  - apply timed_app; [exact IH|]. eapply run_pass_timed. exact Hpass.
Qed.

(** The call of [ComputeDelay] made for a fetch: the one at the same rank. *)
Lemma timed_nth tr l1 f l2 :
  timed tr -> fetches tr = l1 ++ f :: l2 ->
  exists c,
    nth_error (delays tr) (List.length l1) = Some c /\
    dr_result c = fr_delay f.
Proof.
  unfold timed. intros Ht Hf. rewrite Hf in Ht.
  assert (Hn : nth_error (map fr_delay (l1 ++ f :: l2)) (List.length l1)
               = Some (fr_delay f)).
  { rewrite map_app, nth_error_app2 by (rewrite length_map; lia).
    rewrite length_map, Nat.sub_diag. reflexivity. }
  rewrite <- Ht, nth_error_map in Hn.
  destruct (nth_error (delays tr) (List.length l1)) as [c|]; [|discriminate].
  exists c. split; [reflexivity|]. cbn in Hn. congruence.
Qed.


(** C4 (the code departs from the claim).  After a fetch that succeeded,
    the telemetry holds the status code, whether the request was a HEAD
    and whether it was for robots.txt; but its duration is the start of the
    call minus its return, [now.Sub(time.Now())]: never positive, and
    negative whenever the call took time. *)
Theorem C4_recorded_duration_is_start_minus_return u agent head m res m' tr :
  fetchAttempt extender logFunc lib isRobotsTxtUrl u agent head m
    = (Some res, m', tr) ->
  exists tr0 start finish d,
    tr = tr0 ++ [EvFetch u agent head start finish d (inl res)] /\
    start <= finish /\
    lastFetch (wk m') =
      Some (mkFetchInfo (time_Sub start finish) (StatusCode res) head
              (isRobotsTxtUrl (Some u))) /\
    time_Sub start finish <= 0 /\
    (start < finish -> time_Sub start finish < 0).
Proof.
  intros H. apply fetchAttempt_inv in H.
  destruct H as (tr0 & start & finish & d & fr & _ & _ & Hsf & _ & _ & _ & _
                 & _ & _ & _ & Hcase).
  destruct fr as [res'|e]; [|destruct Hcase as (Hr & _); discriminate Hr].
  destruct Hcase as (Hr & -> & _ & Hl). injection Hr as <-.
  exists tr0, start, finish, d. repeat apply conj; try assumption.
  - reflexivity.
  - unfold time_Sub, minDuration, maxDuration. lia.
  - unfold time_Sub, minDuration, maxDuration. lia.
Qed.

(** *** The select *)

Lemma earliest_le ts : forall wake t,
  earliest ts = Some wake -> In t ts -> wake <= t.
Proof.
  induction ts as [|t0 rest IH]; intros wake t H Hin; [contradiction|].
  cbn in H. destruct (earliest rest) as [w|] eqn:E.
  - injection H as <-. destruct Hin as [<-|Hin]; [lia|].
    specialize (IH w t eq_refl Hin). lia.
  - injection H as <-. destruct Hin as [<-|Hin]; [lia|].
    destruct rest; [contradiction|]. cbn in E.
    destruct (earliest rest); discriminate.
Qed.

Lemma enter_wait_inv m idleChan m0 tr0 :
  @enter_wait W Group Node logFunc m = (idleChan, m0, tr0) ->
  wk m0 = wk m /\ stopAt m0 = stopAt m /\ inbox m0 = inbox m /\
  clock m <= clock m0 /\ pushes tr0 = [] /\ fetches tr0 = [] /\
  idleChan =
    (if 0 <? idleTTL (wk m) then Some (clock m0 + idleTTL (wk m)) else None).
Proof.
  intros H. unfold enter_wait in H. exec_in H.
  all: finish_run H; cbn; unfold time_After.
  all: repeat match goal with E : (0 <? _) = _ |- _ => rewrite E end.
  all: repeat split; lia.
Qed.

(** C5 (as amended).  In a pass through the control loop: taking the stop
    transition terminates the worker with no work result and no fetch; the
    idle timeout is taken only when [idleTTL] is positive and neither the
    stop signal nor a batch is ready before the timer delivers; and when
    the stop signal is ready on entry and no batch is queued, the stop
    transition is the one taken.  (Nothing more is promised when several
    communications are ready together.) *)
Theorem C5_stop_has_no_precedence_in_select m c ph m' tr :
  run_pass extender logFunc lib isRobotsTxtUrl m c ph m' tr ->
  (c = CaseStop -> ph = Terminated /\ pushes tr = [] /\ fetches tr = []) /\
  (c = CaseIdle ->
   0 < idleTTL (wk m) /\ ph = Terminated /\
   exists deadline,
     clock m + idleTTL (wk m) <= deadline /\
     (forall t, stopAt m = Some t -> deadline <= t) /\
     (forall t batch rest, inbox m = (t, batch) :: rest -> deadline <= t)) /\
  (forall t, stopAt m = Some t -> t <= clock m -> inbox m = [] ->
   c = CaseStop).
Proof.
  intros [idleChan m0 tr0 m1 tr1 Henter Hsel Hcase ->].
  apply enter_wait_inv in Henter.
  destruct Henter as (Hwk & Hst & Hin & Hclk & Hp0 & Hf0 & Hidle).
  repeat apply conj.
  - (* the stop transition *)
    intros ->. cbn [run_case] in Hcase. exec_in Hcase. finish_run Hcase.
    observe. repeat split.
  - (* the idle timeout *)
    intros ->. inversion Hsel as [|t wake Ht Hwake Hready|]; subst.
    destruct (0 <? idleTTL (wk m)) eqn:Httl; [|discriminate Ht].
    apply Z.ltb_lt in Httl. injection Ht as <-.
    cbn [run_case] in Hcase. exec_in Hcase.
    all: finish_run Hcase.
    all: repeat apply conj; try assumption; try reflexivity.
    all: exists (clock m0 + idleTTL (wk m)); repeat apply conj; try lia.
    all: unfold ready_from in Hready.
    all: try (intros ts Hs;
              assert (Hle : wake <= ready_from m0 ts)
                by (apply (earliest_le _ _ Hwake); unfold candidates;
                    rewrite Hst, Hs; left; reflexivity);
              unfold ready_from in Hle; lia).
    all: intros tb batch rest Hb;
         assert (Hle : wake <= ready_from m0 tb)
           by (apply (earliest_le _ _ Hwake); unfold candidates;
               rewrite Hin, Hb; apply in_or_app; right; apply in_or_app;
               right; left; reflexivity);
         unfold ready_from in Hle; lia.
  - (* only the stop signal is ready *)
    intros ts Hs Hts Hempty.
    inversion Hsel as [|t wake Ht Hwake Hready|t b rest wake Hb]; subst.
    + reflexivity.
    + exfalso. destruct (0 <? idleTTL (wk m)) eqn:Httl; [|discriminate Ht].
      apply Z.ltb_lt in Httl. injection Ht as <-.
      assert (Hle : wake <= ready_from m0 ts)
        by (apply (earliest_le _ _ Hwake); unfold candidates;
            rewrite Hst, Hs; left; reflexivity).
      unfold ready_from in *. lia.
    + exfalso. rewrite Hin, Hempty in Hb. discriminate Hb.
Qed.

(** *** Facts used by the claims about one command *)

(** A fetch that failed, among fetches of which only the last may have
    failed, is the last one. *)
Lemma failed_is_last l f0 f e :
  In f (l ++ [f0]) -> forallb fr_ok l = true -> fr_result f = inr e ->
  f = f0.
Proof.
  intros Hin Hok Hr. apply in_app_or in Hin. destruct Hin as [Hin|[<-|[]]].
  - rewrite forallb_forall in Hok. specialize (Hok f Hin).
    unfold fr_ok in Hok. rewrite Hr in Hok. discriminate.
  - reflexivity.
Qed.

Lemma final_response_last tr l f :
  fetches tr = l ++ [f] ->
  final_response tr =
  if fr_head f then None
  else match fr_result f with inl res => Some res | inr _ => None end.
Proof.
  intros H. unfold final_response. rewrite H, rev_app_distr. reflexivity.
Qed.

Lemma final_response_none tr : fetches tr = [] -> final_response tr = None.
Proof. intros H. unfold final_response. rewrite H. reflexivity. Qed.

Lemma is2xx_iff code : is2xx code = true <-> 200 <= code < 300.
Proof. unfold is2xx. rewrite andb_true_iff, Z.leb_le, Z.ltb_lt. tauto. Qed.

(** After a command, the loop over the batch goes on with the next one
    unless the stop signal is ready. *)
Lemma processBatch_continues cmd rest m x m' tr :
  processCommand extender logFunc lib isRobotsTxtUrl cmd m = (x, m', tr) ->
  stop_ready m' = false ->
  processBatch extender logFunc lib isRobotsTxtUrl (cmd :: rest) m =
  (let '(ph, m2, tr2) :=
     processBatch extender logFunc lib isRobotsTxtUrl rest m' in
   (ph, m2, tr ++ tr2)).
Proof.
  intros H Hstop. cbn [processBatch]. unfold bind at 1. rewrite H.
  unfold bind at 1. unfold poll_stop. rewrite Hstop.
  destruct (processBatch _ _ _ _ rest m') as [[ph m2] tr2]. reflexivity.
Qed.

(** C6 (as amended).  When a fetch of a command fails at the transport
    level: it is the command's last fetch (no GET follows a HEAD that
    failed); the telemetry is left empty; an error of kind [CekFetch] for
    the command's URL is reported; nothing is visited; a work result with
    [visited = false] is pushed, except for the robots.txt command, for
    which nothing is pushed; and the loop over the batch goes on with the
    next command unless the stop signal is ready. *)
Theorem C6_fetch_failure_is_reported_and_not_fatal cmd m x m' tr f e :
  processCommand extender logFunc lib isRobotsTxtUrl cmd m = (x, m', tr) ->
  In f (fetches tr) ->
  fr_result f = inr e ->
  (exists l, fetches tr = l ++ [f] /\ forallb fr_ok l = true) /\
  lastFetch (wk m') = None /\
  In (newCrawlError e CekFetch (Some (cmd_u cmd))) (errors tr) /\
  visits tr = [] /\
  pushes tr =
    (if isRobotsTxtUrl (Some (cmd_u cmd)) then []
     else [mkWorkerResponse (host (wk m)) false (Some (cmd_u cmd)) []
             false]) /\
  (forall rest, stop_ready m' = false ->
     processBatch extender logFunc lib isRobotsTxtUrl (cmd :: rest) m =
     (let '(ph, m2, tr2) :=
        processBatch extender logFunc lib isRobotsTxtUrl rest m' in
      (ph, m2, tr ++ tr2))).
Proof.
  intros H Hin Hr.
  assert (Hgo : forall rest, stop_ready m' = false ->
     processBatch extender logFunc lib isRobotsTxtUrl (cmd :: rest) m =
     (let '(ph, m2, tr2) :=
        processBatch extender logFunc lib isRobotsTxtUrl rest m' in
      (ph, m2, tr ++ tr2)))
    by (intros rest; apply processBatch_continues with (x := x); exact H).
  revert Hgo. command_routes H; intros Hgo; revert Hin; observe; intros Hin.
  - (* the robots.txt command *)
    destruct Hrun as (Hp & _ & Hv & _ & rr & _ & Hrr).
    destruct (fst rr).
    + destruct Hrr as [(f0 & e0 & Hf & Hr0 & Hl & He)
                      |(f0 & res & Hf & _ & Hr0 & _)];
        rewrite Hf in Hin; destruct Hin as [<-|[]];
        rewrite Hr in Hr0; [injection Hr0 as <-|discriminate Hr0].
      rewrite Hrob, Hf, He. repeat apply conj; auto.
      * exists []. split; reflexivity.
      * left. reflexivity.
    + destruct Hrr as (Hf & _). rewrite Hf in Hin. contradiction.
  - (* a fetch failed *)
    destruct Hfail as (l & f0 & e0 & Hf & Hr0 & Hok & Hl & He & Hp & _ & Hv
                       & _).
    rewrite Hf in Hin. pose proof (failed_is_last _ _ _ Hin Hok Hr) as ->.
    rewrite Hr in Hr0. injection Hr0 as <-.
    rewrite Hf, He. repeat apply conj; auto.
    + exists l. split; [reflexivity|assumption].
    + left. reflexivity.
  - (* the GET was declined *)
    destruct Hdecl as (_ & _ & _ & _ & _ & _ & f0 & res & Hf & _ & Hr0).
    rewrite Hf in Hin. destruct Hin as [<-|[]]. rewrite Hr in Hr0.
    discriminate Hr0.
  - (* there is a final response *)
    destruct Hfinal as (l & f0 & res & Hf & _ & Hr0 & Hok & _).
    rewrite Hf in Hin. pose proof (failed_is_last _ _ _ Hin Hok Hr) as ->.
    rewrite Hr in Hr0. discriminate Hr0.
  - (* disallowed *)
    contradiction.
Qed.

(** The final response of a command that is not the robots.txt command is
    the one [requestUrl] classifies. *)
Lemma final_response_route cmd m x m' tr res :
  processCommand extender logFunc lib isRobotsTxtUrl cmd m = (x, m', tr) ->
  isRobotsTxtUrl (Some (cmd_u cmd)) = false ->
  final_response tr = Some res ->
  if is2xx (StatusCode res) then
    exists harvested res' doc,
      pushes tr =
        [mkWorkerResponse (host (wk m)) true (Some (cmd_u cmd)) harvested
           false] /\
      visits tr = [(res', doc)] /\
      visiteds tr = [(Request_URL res, harvested)] /\
      (forall e, body_err (RespBody res) = Some e ->
         res' = res /\ doc = None /\
         In (newCrawlError e CekReadBody (Some (Request_URL res)))
           (errors tr))
  else
    pushes tr =
      [mkWorkerResponse (host (wk m)) false (Some (cmd_u cmd)) [] false] /\
    visits tr = [] /\ visiteds tr = [] /\
    errors tr =
      [newCrawlErrorMessage (Status res) CekHttpStatusCode
         (Some (cmd_u cmd))].
Proof.
  intros H Hnot Hfin.
  assert (Hfr : forall (a b : list (Event Node)),
             fetches a = [] -> final_response (a ++ b) = final_response b)
    by (intros a b Ha; apply final_response_fetches;
        rewrite fetches_app, Ha; reflexivity).
  command_routes H; try congruence.
  - destruct Hfail as (l & f & e & Hf & Hr & _).
    rewrite Hfr, (final_response_last _ _ _ Hf), Hr in Hfin by assumption.
    destruct (fr_head f); discriminate Hfin.
  - destruct Hdecl as (_ & _ & _ & _ & _ & _ & f & r & Hf & Hh & _).
    rewrite Hfr, (final_response_last _ [] _ Hf), Hh in Hfin by assumption.
    discriminate Hfin.
  - destruct Hfinal as (l & f & r & Hf & Hh & Hr & _ & _ & Hcls).
    rewrite Hfr, (final_response_last _ _ _ Hf), Hh, Hr in Hfin by assumption.
    injection Hfin as ->. rewrite Hrob in Hcls.
    destruct (is2xx (StatusCode res)).
    + destruct Hcls as (h & res' & doc & Hp & Hv & Hvd & Hbody).
      exists h, res', doc. observe. repeat apply conj; try reflexivity.
      intros e He. destruct (Hbody e He) as (-> & -> & Hin).
      repeat apply conj; try reflexivity. exact Hin.
    + destruct Hcls as (Hp & Hv & Hvd & He). observe.
      repeat apply conj; reflexivity.
  - rewrite Hfr, final_response_none in Hfin
      by first [assumption|reflexivity].
    discriminate Hfin.
Qed.

(** C7 (as amended).  For a command that is not the robots.txt command and
    that ends with a final response: when the status code is in
    [200, 300) the visit protocol runs ([Visit] and [Visited] are called)
    and the work result pushed has [visited = true]; for any other status
    code an error of kind [CekHttpStatusCode] carrying the status text is
    reported, nothing is visited, and the work result pushed has
    [visited = false]. *)
Theorem C7_status_code_decides_the_visit cmd m x m' tr res :
  processCommand extender logFunc lib isRobotsTxtUrl cmd m = (x, m', tr) ->
  isRobotsTxtUrl (Some (cmd_u cmd)) = false ->
  final_response tr = Some res ->
  (200 <= StatusCode res < 300 ->
   exists harvested res' doc,
     pushes tr =
       [mkWorkerResponse (host (wk m)) true (Some (cmd_u cmd)) harvested
          false] /\
     visits tr = [(res', doc)] /\
     visiteds tr = [(Request_URL res, harvested)]) /\
  (~ 200 <= StatusCode res < 300 ->
   errors tr =
     [newCrawlErrorMessage (Status res) CekHttpStatusCode
        (Some (cmd_u cmd))] /\
   visits tr = [] /\ visiteds tr = [] /\
   pushes tr =
     [mkWorkerResponse (host (wk m)) false (Some (cmd_u cmd)) [] false]).
Proof.
  intros H Hnot Hfin.
  pose proof (final_response_route _ _ H Hnot Hfin) as Hroute.
  split; intros Hcode.
  - apply is2xx_iff in Hcode. rewrite Hcode in Hroute.
    destruct Hroute as (h & res' & doc & Hp & Hv & Hvd & _).
    exists h, res', doc. auto.
  - destruct (is2xx (StatusCode res)) eqn:E.
    + apply is2xx_iff in E. contradiction.
    + tauto.
Qed.

(** C10 (as amended).  For a command that is not the robots.txt command,
    whose final response is 2xx and has a body that cannot be read to its
    end: the read error is reported, [Visit] is still called, with the
    response and no document, [Visited] is called, and the work result
    pushed has [visited = true]. *)
Theorem C10_unreadable_body_is_still_visited cmd m x m' tr res e :
  processCommand extender logFunc lib isRobotsTxtUrl cmd m = (x, m', tr) ->
  isRobotsTxtUrl (Some (cmd_u cmd)) = false ->
  final_response tr = Some res ->
  200 <= StatusCode res < 300 ->
  body_err (RespBody res) = Some e ->
  exists harvested,
    visits tr = [(res, None)] /\
    visiteds tr = [(Request_URL res, harvested)] /\
    pushes tr =
      [mkWorkerResponse (host (wk m)) true (Some (cmd_u cmd)) harvested
         false] /\
    In (newCrawlError e CekReadBody (Some (Request_URL res))) (errors tr).
Proof.
  intros H Hnot Hfin Hcode Hbody.
  pose proof (final_response_route _ _ H Hnot Hfin) as Hroute.
  apply is2xx_iff in Hcode. rewrite Hcode in Hroute.
  destruct Hroute as (h & res' & doc & Hp & Hv & Hvd & Hb).
  destruct (Hb e Hbody) as (-> & -> & Hin).
  exists h. auto.
Qed.

(** C8.  When the bytes of robots.txt, taken from the cache or from the
    fetched response, cannot be parsed: the worker's policy becomes absent,
    an error of kind [CekParseRobots] is reported, every URL is then
    allowed (silently, whatever its path), and the loop over the batch goes
    on with the next command unless the stop signal is ready. *)
Theorem C8_unparsable_robots_txt_means_no_policy cmd m x m' tr e :
  processCommand extender logFunc lib isRobotsTxtUrl cmd m = (x, m', tr) ->
  isRobotsTxtUrl (Some (cmd_u cmd)) = true ->
  (exists b,
     robots_answers tr = [(false, b)] /\
     robotstxt_FromBytes lib b = inr e)
  \/
  (exists res,
     final_response tr = Some res /\
     body_err (RespBody res) = None /\
     robotstxt_FromBytes lib (body_data (RespBody res)) = inr e) ->
  robotsGroup (wk m') = None /\
  In (newCrawlError e CekParseRobots None) (errors tr) /\
  (forall u,
     isAllowedPerRobotsPolicies (Node:=Node) logFunc lib u m'
       = (true, m', [])) /\
  (forall rest, stop_ready m' = false ->
     processBatch extender logFunc lib isRobotsTxtUrl (cmd :: rest) m =
     (let '(ph, m2, tr2) :=
        processBatch extender logFunc lib isRobotsTxtUrl rest m' in
      (ph, m2, tr ++ tr2))).
Proof.
  intros H Hrobots Hbad.
  assert (Hgo : forall rest, stop_ready m' = false ->
     processBatch extender logFunc lib isRobotsTxtUrl (cmd :: rest) m =
     (let '(ph, m2, tr2) :=
        processBatch extender logFunc lib isRobotsTxtUrl rest m' in
      (ph, m2, tr ++ tr2)))
    by (intros rest; apply processBatch_continues with (x := x); exact H).
  assert (Hfr : forall (a b : list (Event Node)),
             fetches a = [] -> final_response (a ++ b) = final_response b)
    by (intros a b Ha; apply final_response_fetches;
        rewrite fetches_app, Ha; reflexivity).
  assert (Hnone : robotsGroup (wk m') = None ->
            forall u,
              isAllowedPerRobotsPolicies (Node:=Node) logFunc lib u m'
                = (true, m', [])).
  { intros Hg u. unfold isAllowedPerRobotsPolicies, bind, this, ret.
    rewrite Hg. reflexivity. }
  revert Hgo. command_routes H; try congruence. intros Hgo.
  destruct Hrun as (_ & _ & _ & _ & rr & Hrr & Hcases).
  assert (Hgoal : robotsGroup (wk m') = None /\
                  errors tr1 = [newCrawlError e CekParseRobots None]).
  { destruct Hbad as [(b & Hans & Hparse)|(res & Hfin & Hread & Hparse)].
    - revert Hans. observe. intros [= ->]. cbn in Hcases.
      destruct Hcases as (_ & Hcases). rewrite Hparse in Hcases.
      exact Hcases.
    - rewrite Hfr in Hfin by assumption. destruct (fst rr).
      + destruct Hcases as [(f & e0 & Hf & Hr & _)
                           |(f & r & Hf & Hh & Hr & Hcases)];
          rewrite (final_response_last _ [] _ Hf) in Hfin;
          rewrite Hr in Hfin; destruct (fr_head f); try discriminate.
        injection Hfin as ->. rewrite Hread, Hparse in Hcases.
        exact Hcases.
      + destruct Hcases as (Hf & _).
        rewrite final_response_none in Hfin by assumption. discriminate. }
  destruct Hgoal as (Hg & He). observe.
  repeat apply conj; auto. left. reflexivity.
Qed.

(** C9.  The URLs harvested from a document are, in the order of its
    anchors, what each [href] value yields: nothing for a value that
    starts with a hash sign; the reference resolved against the document's
    URL for a value that parses; nothing for a value that does not parse,
    which is logged at level [LogIgnored].  No error is reported. *)
Theorem C9_harvested_links doc m r m' tr :
  processLinks logFunc lib doc m = (r, m', tr) ->
  r = flat_map (harvest_one lib (doc_Url doc))
        (anchorHrefs lib (doc_node doc)) /\
  ignored tr = flat_map (ignored_one lib) (anchorHrefs lib (doc_node doc)) /\
  errors tr = [] /\
  (forall s,
     String.prefix "#" s = true ->
     harvest_one lib (doc_Url doc) s = [] /\ ignored_one lib s = []) /\
  (forall s parsed,
     s <> "" -> String.prefix "#" s = false ->
     url_Parse lib s = inl parsed ->
     harvest_one lib (doc_Url doc) s =
       [ResolveReference lib (doc_Url doc) parsed] /\
     ignored_one lib s = []) /\
  (forall s e,
     s <> "" -> String.prefix "#" s = false ->
     url_Parse lib s = inr e ->
     harvest_one lib (doc_Url doc) s = [] /\
     ignored_one lib s =
       [("ignore on unparsable policy %s: %s\n", [ArgString s; ArgString e])]).
Proof.
  intros H. apply processLinks_spec in H.
  destruct H as (Hr & _ & He & _ & _ & Hi).
  assert (Hlen : forall s, s <> "" -> (0 <? String.length s)%nat = true).
  { intros [|c s] Hs; [contradiction|reflexivity]. }
  repeat apply conj; try assumption.
  - intros s Hs. unfold harvest_one, ignored_one. rewrite Hs.
    rewrite andb_false_r. split; reflexivity.
  - intros s parsed Hs Hp Hparse. unfold harvest_one, ignored_one.
    rewrite (Hlen s Hs), Hp, Hparse. split; reflexivity.
  - intros s e Hs Hp Hparse. unfold harvest_one, ignored_one.
    rewrite (Hlen s Hs), Hp, Hparse. split; reflexivity.
Qed.

(** ** Further properties *)

(** *** A URL the policy disallows *)

(** X1.  A command for a URL that the robots policy in force disallows is
    not fetched: no delay is computed and no fetch made; the [Disallowed]
    hook is called once, with the URL; the refusal is logged; one work
    result is pushed, with [visited = false] and no harvested link; no error
    is reported; and the worker's fields are left as they were. *)
Theorem X1_disallowed_url_is_reported_and_not_fetched cmd g m x m' tr :
  processCommand extender logFunc lib isRobotsTxtUrl cmd m = (x, m', tr) ->
  isRobotsTxtUrl (Some (cmd_u cmd)) = false ->
  robotsGroup (wk m) = Some g ->
  Test lib g (Path (cmd_u cmd)) = false ->
  fetches tr = [] /\ delays tr = [] /\
  disalloweds tr = [cmd_u cmd] /\
  ignored tr =
    [("ignored on robots.txt policy: %s\n", [ArgURL (cmd_u cmd)])] /\
  pushes tr =
    [mkWorkerResponse (host (wk m)) false (Some (cmd_u cmd)) [] false] /\
  errors tr = [] /\ visits tr = [] /\ wk m' = wk m.
Proof.
  intros H Hrob Hg Ht.
  unfold processCommand, isAllowedPerRobotsPolicies in H.
  exec_in H.
  all: finish_run H.
  all: repeat split; reflexivity.
Qed.
Lemma Emits_fetchAttempt_page u agent head :
  Emits (@page_event Node)
    (fetchAttempt extender logFunc lib isRobotsTxtUrl u agent head).
Proof. unfold fetchAttempt. emits. Qed.

Lemma Emits_fetchAttempt_robots u agent head :
  isRobotsTxtUrl (Some u) = true ->
  Emits (@robots_event Node)
    (fetchAttempt extender logFunc lib isRobotsTxtUrl u agent head).
Proof. intros Hrob. unfold fetchAttempt. emits. Qed.

Lemma Emits_requestUrl u head :
  Emits (@page_event Node) (requestUrl extender logFunc lib isRobotsTxtUrl u head).
Proof.
  unfold requestUrl, fetchUrl, visitUrl, processLinks.
  unfold log, ext_Error, sendResponse.
  repeat first
    [ apply Emits_fetchAttempt_page
    | apply Emits_processLinks_loop; reflexivity
    | emits_step ].
Qed.

Lemma Emits_requestRobotsTxt u :
  isRobotsTxtUrl (Some u) = true ->
  Emits (@robots_event Node) (requestRobotsTxt extender logFunc lib isRobotsTxtUrl u).
Proof.
  intros Hrob. unfold requestRobotsTxt, fetchUrl, getRobotsTxtGroup.
  unfold log, ext_Error.
  repeat first [ apply Emits_fetchAttempt_robots; exact Hrob | emits_step ].
Qed.

(** X2.  The callbacks a command can give rise to.  The robots.txt command
    calls only [RequestRobots], [ComputeDelay], [Fetch], [FetchedRobots] and
    [Error], logs and closes bodies: it never calls [RequestGet], [Visit],
    [Visited] or [Disallowed] and pushes no work result.  A command for any
    other URL never calls [RequestRobots] or [FetchedRobots], and no
    command calls [wg.Done]. *)
Theorem X2_callbacks_of_a_command cmd m x m' tr :
  processCommand extender logFunc lib isRobotsTxtUrl cmd m = (x, m', tr) ->
  forallb
    (if isRobotsTxtUrl (Some (cmd_u cmd)) then @robots_event Node
     else @page_event Node) tr = true.
Proof.
  revert m x m' tr. change (Emits
    (if isRobotsTxtUrl (Some (cmd_u cmd)) then @robots_event Node
     else @page_event Node)
    (processCommand extender logFunc lib isRobotsTxtUrl cmd)).
  unfold processCommand, isAllowedPerRobotsPolicies, log, sendResponse.
  destruct (isRobotsTxtUrl (Some (cmd_u cmd))) eqn:Hrob.
  - repeat first [ apply Emits_requestRobotsTxt; exact Hrob | emits_step ].
  - repeat first [ apply Emits_requestUrl | emits_step ].
Qed.

(** *** One pass of the loop of fetchUrl, in full *)

(** The events of one pass, the worker it leaves, and when the fetch
    started and returned. *)
Lemma fetchAttempt_trace u agent head m r m' tr :
  fetchAttempt extender logFunc lib isRobotsTxtUrl u agent head m
    = (r, m', tr) ->
  exists d start finish fr,
    tr = EvLog LogTrace "waiting for crawl delay\n" []
         :: EvComputeDelay (host (wk m))
              (mkDelayInfo (crawlDelay (wk m))
                 match robotsGroup (wk m) with
                 | Some g => CrawlDelay lib g
                 | None => 0
                 end
                 (lastCrawlDelay (wk m)))
              (lastFetch (wk m)) d
         :: EvLog LogInfo "using crawl-delay: %v\n" [ArgDuration d]
         :: EvFetch u agent head start finish d fr
         :: match fr with
            | inl _ => []
            | inr e =>
                EvError (newCrawlError e CekFetch (Some u))
                :: EvLog LogError "ERROR fetching %s: %s\n"
                     [ArgURL u; ArgString e]
                :: (if isRobotsTxtUrl (Some u) then []
                    else [EvPush (mkWorkerResponse (host (wk m)) false
                                    (Some u) [] false)])
            end /\
    r = match fr with inl res => Some res | inr _ => None end /\
    wk m' =
      mkWorker (host (wk m)) (index (wk m)) (userAgent (wk m))
        (robotUserAgent (wk m)) (crawlDelay (wk m)) (idleTTL (wk m))
        (robotsGroup (wk m))
        match fr with inl _ => Some (finish + d) | inr _ => None end
        (telemetry isRobotsTxtUrl (mkFetchRec u agent head start finish d fr))
        d /\
    clock m <= start /\ start <= finish /\ finish <= clock m' /\
    match wait (wk m) with Some t => t <= start | None => True end /\
    (match fr with inl _ => clock m' = finish | inr _ => True end) /\
    stopAt m' = stopAt m /\ inbox m' = inbox m.
Proof.
  intros H. unfold fetchAttempt in H. exec_in H.
  all: finish_run H.
  all: match goal with
       | E : Fetch _ _ _ _ ?t _ = (?fr, _, ?n),
         D : ComputeDelay _ _ _ _ _ _ = (?d, _, _) |- _ =>
           exists d, t, (t + Z.of_N n), fr
       end.
  all: unfold time_After, telemetry, set_lastFetch, set_wait,
         set_lastCrawlDelay; cbn.
  all: repeat match goal with
              | E : wait _ = _ |- _ => rewrite E
              | E : robotsGroup _ = _ |- _ => rewrite E
              end; cbn.
  all: destruct (isRobotsTxtUrl (Some u)); try discriminate.
  all: repeat split; try lia; try reflexivity.
Qed.

(** *** Notes, and the events of a visit *)

Lemma popped_log_free flag format args :
  String.eqb format "popped: %s\n" = false ->
  popped [@EvLog Node flag format args] = [].
Proof.
  intros H. unfold popped. cbn. destruct flag; try reflexivity.
  destruct args as [|[u| |] [|? ?]]; try reflexivity. rewrite H. reflexivity.
Qed.

Lemma popped_cons (e : Event Node) tr :
  popped (e :: tr) = popped [e] ++ popped tr.
Proof. unfold popped. cbn. rewrite app_nil_r. reflexivity. Qed.

Lemma inner_facts tr :
  forallb (@inner_event Node) tr = true ->
  pushes tr = [] /\ fetches tr = [] /\ declined tr = false /\
  robots_answers tr = [] /\ disalloweds tr = [] /\ closes tr = [] /\
  robots_requests tr = [] /\ delays tr = [] /\ popped tr = [] /\
  wg_dones tr = 0%nat /\ forallb (@inert Node) tr = true.
Proof.
  induction tr as [|e tr IH]; [cbn; repeat split|].
  intros H. cbn [forallb] in H. apply andb_true_iff in H.
  destruct H as [He Ht]. specialize (IH Ht).
  destruct IH as (? & ? & ? & ? & ? & ? & ? & ? & Hpop & ? & ?).
  rewrite popped_cons, Hpop, app_nil_r.
  destruct e; cbn in He; try discriminate He;
    try (apply negb_true_iff in He; rewrite popped_log_free by exact He);
    cbn; repeat split; assumption.
Qed.

Lemma note_facts tr :
  forallb (@note_event Node) tr = true ->
  forallb (@inner_event Node) tr = true /\ visits tr = [] /\ visiteds tr = [] /\
  visit_answers tr = [] /\ fetched_robots tr = [].
Proof.
  induction tr as [|e tr IH]; [cbn; repeat split|].
  intros H. cbn [forallb] in H. apply andb_true_iff in H.
  destruct H as [He Ht]. specialize (IH Ht).
  destruct IH as (Hi & ? & ? & ? & ?).
  destruct e; cbn in He; try discriminate He; cbn; rewrite ?He, ?Hi;
    repeat split; assumption.
Qed.

(** The bookkeeping along a list of events that follows another. *)
Lemma telemetry_after_app (a : list (Event Node)) : forall lf b,
  telemetry_after isRobotsTxtUrl lf (a ++ b) =
  telemetry_after isRobotsTxtUrl (telemetry_after isRobotsTxtUrl lf a) b.
Proof.
  induction a as [|e a IH]; intros lf b; [reflexivity|].
  destruct e; cbn; apply IH.
Qed.

Lemma delay_after_app (a : list (Event Node)) : forall ld b,
  delay_after ld (a ++ b) = delay_after (delay_after ld a) b.
Proof.
  induction a as [|e a IH]; intros ld b; [reflexivity|].
  destruct e; cbn; apply IH.
Qed.

Lemma booked_app (a : list (Event Node)) : forall lf ld b,
  booked isRobotsTxtUrl lf ld (a ++ b) <->
  booked isRobotsTxtUrl lf ld a /\
  booked isRobotsTxtUrl (telemetry_after isRobotsTxtUrl lf a)
    (delay_after ld a) b.
Proof.
  induction a as [|e a IH]; intros lf ld b; [cbn; tauto|].
  destruct e; cbn; rewrite ?IH; tauto.
Qed.

Lemma inert_facts tr : forall lf ld,
  forallb (@inert Node) tr = true ->
  booked isRobotsTxtUrl lf ld tr /\
  telemetry_after isRobotsTxtUrl lf tr = lf /\ delay_after ld tr = ld /\
  fetches tr = [] /\ delays tr = [].
Proof.
  induction tr as [|e tr IH]; intros lf ld H; [cbn; repeat split|].
  cbn [forallb] in H. apply andb_true_iff in H. destruct H as [He Ht].
  specialize (IH lf ld Ht).
  destruct e; cbn in He; try discriminate He; cbn; exact IH.
Qed.

Ltac trace_norm2 :=
  unfold pushes, fetches, errors, visits, visiteds, ignored, declined,
    robots_answers, disalloweds, closes, fetched_robots, robots_requests,
    visit_answers, delays, popped in *;
  cbn in *;
  repeat (progress
            (rewrite ?flat_map_app, ?existsb_app, ?forallb_app; cbn;
             repeat match goal with
                    | E : flat_map _ ?l = _ |- _ => is_var l; rewrite E
                    | E : existsb _ ?l = _ |- _ => is_var l; rewrite E
                    | E : forallb _ ?l = _ |- _ => is_var l; rewrite E
                    end; cbn)).

Lemma Emits_processLinks_note doc :
  Emits (@note_event Node) (processLinks (W:=W) (Group:=Group) logFunc lib doc).
Proof.
  unfold processLinks. apply Emits_processLinks_loop. reflexivity.
Qed.

(** [visitUrl], in full: what [Visit] is given, which links are kept, what
    [Visited] is told, and the errors reported. *)
Lemma visitUrl_more res m h m' tr :
  visitUrl extender logFunc lib res m = (h, m', tr) ->
  wk m' = wk m /\ stopAt m' = stopAt m /\ inbox m' = inbox m /\
  clock m <= clock m' /\ forallb (@inner_event Node) tr = true /\
  exists r,
    visit_answers tr = [r] /\
    let doc :=
      match body_err (RespBody res) with
      | Some _ => None
      | None =>
          match html_Parse lib (body_data (RespBody res)) with
          | inl node => Some (mkDocument node (Request_URL res))
          | inr _ => None
          end
      end in
    visits tr =
      [(match body_err (RespBody res) with
        | Some _ => res
        | None => with_Body res (rewound (body_data (RespBody res)))
        end, doc)] /\
    h = (if snd r then
           match doc with
           | Some d =>
               flat_map (harvest_one lib (Request_URL res))
                 (anchorHrefs lib (doc_node d))
           | None => fst r
           end
         else fst r) /\
    visiteds tr = [(Request_URL res, h)] /\
    errors tr =
      match body_err (RespBody res) with
      | Some e => [newCrawlError e CekReadBody (Some (Request_URL res))]
      | None =>
          match html_Parse lib (body_data (RespBody res)) with
          | inl _ => []
          | inr e => [newCrawlError e CekParseBody (Some (Request_URL res))]
          end
      end ++
      (if snd r then
         match doc with
         | Some _ => []
         | None =>
             [newCrawlErrorMessage "No goquery document to process links."
                CekProcessLinks (Some (Request_URL res))]
         end
       else []).
Proof.
  intros H. unfold visitUrl, ioutil_ReadAll in H. exec_in H.
  all: finish_run H.
  all: try match goal with E : processLinks _ _ _ _ = _ |- _ =>
         pose proof (Emits_processLinks_note _ _ E) as Hn;
         apply note_facts in Hn;
         destruct Hn as (Hin & Hnv & Hnd & Hna & Hnf);
         apply processLinks_spec in E;
         destruct E as (-> & (Hw & Hs & Hi & Hc & _) & He & _ & _ & _)
       end.
  all: match goal with
       | E : Visit _ _ _ _ _ = (?r, _, _) |- _ =>
           refine (conj _ (conj _ (conj _ (conj _ (conj _
                     (ex_intro _ r _))))))
       end.
  all: cbn [wk stopAt inbox clock]; rewrite ?Hw, ?Hs, ?Hi; try reflexivity;
       try lia.
  all: repeat match goal with
              | E : body_err _ = _ |- _ => rewrite E
              | E : html_Parse _ _ = _ |- _ => rewrite E
              | E : snd _ = _ |- _ => rewrite E
              end; cbn [doc_node doc_Url].
  all: trace_norm2; rewrite ?Hin; repeat split; try reflexivity; lia.
Qed.

Lemma telemetry_after_inert tr lf :
  forallb (@inert Node) tr = true -> telemetry_after isRobotsTxtUrl lf tr = lf.
Proof. intros H. apply (inert_facts _ lf 0 H). Qed.

Lemma delay_after_inert tr ld :
  forallb (@inert Node) tr = true -> delay_after ld tr = ld.
Proof. intros H. apply (inert_facts _ None ld H). Qed.

Lemma booked_inert tr lf ld :
  forallb (@inert Node) tr = true -> booked isRobotsTxtUrl lf ld tr.
Proof. intros H. apply (inert_facts _ lf ld H). Qed.

(** [getRobotsTxtGroup] tells [FetchedRobots] of the response it was
    given, with a body that can be read again, and of nothing else. *)
Lemma getRobotsTxtGroup_more b res m g m' tr :
  getRobotsTxtGroup extender logFunc lib b res m = (g, m', tr) ->
  forallb (@inner_event Node) tr = true /\ visit_answers tr = [] /\
  fetched_robots tr =
    match res with
    | Some r => [with_Body r (rewound (body_data (RespBody r)))]
    | None => []
    end.
Proof.
  intros H. unfold getRobotsTxtGroup, ioutil_ReadAll in H. exec_in H.
  all: finish_run H.
  all: repeat split; reflexivity.
Qed.

(** Replace a run of [fetchAttempt] by its events and the worker it
    leaves. *)
Ltac use_attempt :=
  match goal with
  | E : fetchAttempt _ _ _ _ _ _ _ _ = _ |- _ =>
      apply fetchAttempt_trace in E;
      let fr := fresh "fr" in
      let Hr := fresh "Hr" in
      let Hwk := fresh "Hwk" in
      destruct E as (? & ? & ? & fr & -> & Hr & Hwk & ? & ? & ? & ? & ? & ?
                     & ?);
      destruct fr; try discriminate Hr; try (injection Hr as <-);
      cbn [wk world clock stopAt inbox] in *
  end.

Lemma wg_dones_app (a b : list (Event Node)) :
  wg_dones (a ++ b) = (wg_dones a + wg_dones b)%nat.
Proof. unfold wg_dones. rewrite filter_app, length_app. reflexivity. Qed.

(** Express the fields of the worker after some fetches by those of the
    worker before them. *)
Ltac chain_workers :=
  repeat match goal with
         | E : wk ?a = _ |- _ => is_var a; try rewrite E in *; clear E
         end;
  cbn [host index userAgent robotUserAgent crawlDelay idleTTL robotsGroup
       wait lastFetch lastCrawlDelay wk clock stopAt inbox world] in *.

(** Compute the bookkeeping along a list of events made of known events
    and of lists of inert ones. *)
Ltac book :=
  rewrite ?app_nil_r; cbn [app];
  rewrite ?booked_app, ?telemetry_after_app, ?delay_after_app,
    ?wg_dones_app;
  cbn [booked telemetry_after delay_after];
  rewrite ?telemetry_after_inert, ?delay_after_inert by assumption;
  cbn [booked telemetry_after delay_after].

(** *** requestUrl, in full *)

Lemma requestUrl_more u head m x m' tr :
  requestUrl extender logFunc lib isRobotsTxtUrl u head m = (x, m', tr) ->
  Forall (fun f => fr_u f = u /\ fr_agent f = userAgent (wk m))
    (fetches tr) /\
  (map fr_head (fetches tr) = [head] \/
   head = true /\ map fr_head (fetches tr) = [true; false]) /\
  closes tr = responses (fetches tr) /\
  robotsGroup (wk m') = robotsGroup (wk m) /\
  booked isRobotsTxtUrl (lastFetch (wk m)) (lastCrawlDelay (wk m)) tr /\
  lastFetch (wk m') =
    telemetry_after isRobotsTxtUrl (lastFetch (wk m)) tr /\
  lastCrawlDelay (wk m') = delay_after (lastCrawlDelay (wk m)) tr /\
  map dr_result (delays tr) = map fr_delay (fetches tr) /\
  popped tr = [] /\ disalloweds tr = [] /\
  (forall res, final_response tr = Some res ->
     exists t, wait (wk m') = Some t /\ t <= clock m') /\
  Forall (fun c => dr_host c = host (wk m) /\
                   dr_info c =
                     mkDelayInfo (crawlDelay (wk m))
                       match robotsGroup (wk m) with
                       | Some g => CrawlDelay lib g
                       | None => 0
                       end
                       (LastDelay (dr_info c)))
    (delays tr).
Proof.
  intros H. unfold requestUrl, fetchUrl in H. exec_in H.
  all: finish_run H.
  all: repeat use_attempt.
  all: try match goal with
       | E : visitUrl _ _ _ _ _ = _ |- _ =>
           apply visitUrl_more in E;
           destruct E as (Hvw & _ & _ & Hvc & Hinner & _);
           apply inner_facts in Hinner;
           destruct Hinner as (Hvp & Hvf & Hvd & _ & Hvdis & Hvcl & _ & Hvdel
                               & Hvpop & Hvwg & Hinert)
       end.
  all: chain_workers.
  all: destruct (isRobotsTxtUrl (Some u)) eqn:?.
  all: unfold time_After, final_response, responses.
  all: book.
  all: trace_norm2.
  all: repeat apply conj; try reflexivity; try (repeat constructor; fail).
  all: try solve [book; repeat apply conj; auto using booked_inert].
  all: try solve [intros ? [=]].
  all: try solve [intros ? _; eexists; split; [reflexivity|lia]].
  all: intros res Hres; destruct head; discriminate Hres.
Qed.

(** *** requestRobotsTxt, in full *)

Lemma requestRobotsTxt_more u m x m' tr :
  requestRobotsTxt extender logFunc lib isRobotsTxtUrl u m = (x, m', tr) ->
  Forall (fun f => fr_u f = u /\ fr_agent f = robotUserAgent (wk m))
    (fetches tr) /\
  (map fr_head (fetches tr) = [] \/ map fr_head (fetches tr) = [false]) /\
  closes tr = responses (fetches tr) /\
  robots_requests tr = [(u, robotUserAgent (wk m))] /\
  fetched_robots tr =
    map (fun r => with_Body r (rewound (body_data (RespBody r))))
      (responses (fetches tr)) /\
  (forallb fr_ok (fetches tr) = false ->
   robotsGroup (wk m') = robotsGroup (wk m)) /\
  booked isRobotsTxtUrl (lastFetch (wk m)) (lastCrawlDelay (wk m)) tr /\
  lastFetch (wk m') =
    telemetry_after isRobotsTxtUrl (lastFetch (wk m)) tr /\
  lastCrawlDelay (wk m') = delay_after (lastCrawlDelay (wk m)) tr /\
  map dr_result (delays tr) = map fr_delay (fetches tr) /\
  popped tr = [] /\ disalloweds tr = [] /\
  (forall res, final_response tr = Some res ->
     exists t, wait (wk m') = Some t /\ t <= clock m') /\
  Forall (fun c => dr_host c = host (wk m) /\
                   dr_info c =
                     mkDelayInfo (crawlDelay (wk m))
                       match robotsGroup (wk m) with
                       | Some g => CrawlDelay lib g
                       | None => 0
                       end
                       (LastDelay (dr_info c)))
    (delays tr).
Proof.
  intros H. unfold requestRobotsTxt, fetchUrl in H. exec_in H.
  all: finish_run H.
  all: repeat use_attempt.
  all: try match goal with
       | E : getRobotsTxtGroup _ _ _ _ _ _ = _ |- _ =>
           pose proof (getRobotsTxtGroup_more _ _ _ E) as (Hinner & _ & Hfr);
           apply inner_facts in Hinner;
           destruct Hinner as (Hvp & Hvf & Hvd & _ & Hvdis & Hvcl & Hvrr
                               & Hvdel & Hvpop & Hvwg & Hinert);
           apply getRobotsTxtGroup_spec in E;
           destruct E as ((Hvw & _ & _ & Hvc & _) & _)
       end.
  all: chain_workers.
  all: destruct (isRobotsTxtUrl (Some u)) eqn:?.
  all: unfold time_After, final_response, responses, fr_ok, set_robotsGroup.
  all: book.
  all: trace_norm2.
  all: repeat apply conj; try reflexivity; try (repeat constructor; fail).
  all: try solve [book; repeat apply conj; auto using booked_inert].
  all: try solve [left; reflexivity | right; reflexivity].
  all: try solve [intros ? [=]].
  all: try solve [intros [=]].
  all: try solve [intros ? _; eexists; split; [reflexivity|lia]].
Qed.

(** *** The further observations, event by event *)

Lemma disalloweds_cons (e : Event Node) tr :
  disalloweds (e :: tr) =
  match e with EvDisallowed u => [u] | _ => [] end ++ disalloweds tr.
Proof. reflexivity. Qed.

Lemma closes_cons (e : Event Node) tr :
  closes (e :: tr) =
  match e with EvClose res => [res] | _ => [] end ++ closes tr.
Proof. reflexivity. Qed.

Lemma fetched_robots_cons (e : Event Node) tr :
  fetched_robots (e :: tr) =
  match e with EvFetchedRobots res => [res] | _ => [] end ++
  fetched_robots tr.
Proof. reflexivity. Qed.

Lemma robots_requests_cons (e : Event Node) tr :
  robots_requests (e :: tr) =
  match e with EvRequestRobots u a _ => [(u, a)] | _ => [] end ++
  robots_requests tr.
Proof. reflexivity. Qed.

Lemma popped_cons_match (e : Event Node) tr :
  popped (e :: tr) =
  match e with
  | EvLog LogInfo format [ArgURL u] =>
      if String.eqb format "popped: %s\n" then [u] else []
  | _ => []
  end ++ popped tr.
Proof. reflexivity. Qed.

Lemma delays_cons (e : Event Node) tr :
  delays (e :: tr) =
  match e with
  | EvComputeDelay h di lf r => [mkDelayRec h di lf r]
  | _ => []
  end ++ delays tr.
Proof. reflexivity. Qed.

Lemma disalloweds_app (a b : list (Event Node)) :
  disalloweds (a ++ b) = disalloweds a ++ disalloweds b.
Proof. apply flat_map_app. Qed.

Lemma closes_app (a b : list (Event Node)) :
  closes (a ++ b) = closes a ++ closes b.
Proof. apply flat_map_app. Qed.

Lemma fetched_robots_app (a b : list (Event Node)) :
  fetched_robots (a ++ b) = fetched_robots a ++ fetched_robots b.
Proof. apply flat_map_app. Qed.

Lemma robots_requests_app (a b : list (Event Node)) :
  robots_requests (a ++ b) = robots_requests a ++ robots_requests b.
Proof. apply flat_map_app. Qed.

Lemma delays_app (a b : list (Event Node)) :
  delays (a ++ b) = delays a ++ delays b.
Proof. apply flat_map_app. Qed.

Lemma popped_app (a b : list (Event Node)) :
  popped (a ++ b) = popped a ++ popped b.
Proof. apply flat_map_app. Qed.

Lemma responses_app (a b : list FetchRec) :
  responses (a ++ b) = responses a ++ responses b.
Proof. apply flat_map_app. Qed.

Lemma final_response_cons (e : Event Node) tr :
  fetches [e] = [] -> final_response (e :: tr) = final_response tr.
Proof.
  intros H. apply final_response_fetches. rewrite fetches_cons.
  change (fetches [e]) with
    (match e with
     | EvFetch u a h s f d r => [mkFetchRec u a h s f d r]
     | _ => []
     end ++ []) in H.
  rewrite app_nil_r in H. rewrite H. reflexivity.
Qed.

Create Rewrite HintDb trace2.

#[local] Hint Rewrite disalloweds_cons closes_cons fetched_robots_cons
  robots_requests_cons delays_cons popped_cons_match disalloweds_app closes_app
  fetched_robots_app robots_requests_app delays_app popped_app responses_app
  : trace2.

(** Compute the observations on a list of events that starts with known
    events. *)
Ltac observe2 :=
  repeat (progress
            (autorewrite with trace trace2;
             rewrite ?final_response_cons by reflexivity;
             cbv beta iota;
             cbn [app orb booked telemetry_after delay_after map];
             rewrite ?app_nil_r)).

(** *** processCommand, in full *)

Lemma page_facts tr :
  forallb (@page_event Node) tr = true ->
  robots_requests tr = [] /\ fetched_robots tr = [] /\ robots_answers tr = []
  /\ wg_dones tr = 0%nat.
Proof.
  induction tr as [|e tr IH]; [cbn; repeat split|].
  intros H. cbn [forallb] in H. apply andb_true_iff in H.
  destruct H as [He Ht]. specialize (IH Ht).
  destruct IH as (? & ? & ? & ?).
  destruct e; cbn in He; try discriminate He; cbn; repeat split; assumption.
Qed.

Lemma processCommand_more cmd m x m' tr :
  processCommand extender logFunc lib isRobotsTxtUrl cmd m = (x, m', tr) ->
  Forall (fun f => fr_u f = cmd_u cmd /\ fr_agent f = agent_for isRobotsTxtUrl cmd (wk m))
    (fetches tr) /\
  (map fr_head (fetches tr) = [] \/
   map fr_head (fetches tr) = [head_first isRobotsTxtUrl cmd] \/
   head_first isRobotsTxtUrl cmd = true /\ map fr_head (fetches tr) = [true; false]) /\
  closes tr = responses (fetches tr) /\
  (isRobotsTxtUrl (Some (cmd_u cmd)) = false \/
   forallb fr_ok (fetches tr) = false ->
   robotsGroup (wk m') = robotsGroup (wk m)) /\
  booked isRobotsTxtUrl (lastFetch (wk m)) (lastCrawlDelay (wk m)) tr /\
  lastFetch (wk m') =
    telemetry_after isRobotsTxtUrl (lastFetch (wk m)) tr /\
  lastCrawlDelay (wk m') = delay_after (lastCrawlDelay (wk m)) tr /\
  map dr_result (delays tr) = map fr_delay (fetches tr) /\
  popped tr = [cmd_u cmd] /\
  (forall res, final_response tr = Some res ->
     exists t, wait (wk m') = Some t /\ t <= clock m') /\
  robots_requests tr =
    (if isRobotsTxtUrl (Some (cmd_u cmd))
     then [(cmd_u cmd, robotUserAgent (wk m))] else []) /\
  fetched_robots tr =
    (if isRobotsTxtUrl (Some (cmd_u cmd))
     then map reread (responses (fetches tr)) else []) /\
  Forall (fun c => dr_host c = host (wk m) /\
                   dr_info c =
                     mkDelayInfo (crawlDelay (wk m))
                       match robotsGroup (wk m) with
                       | Some g => CrawlDelay lib g
                       | None => 0
                       end
                       (LastDelay (dr_info c)))
    (delays tr).
Proof.
  intros H. unfold processCommand, isAllowedPerRobotsPolicies in H.
  exec_in H.
  all: finish_run H.
  all: unfold agent_for, head_first, reread.
  all: repeat match goal with
              | E : isRobotsTxtUrl _ = _ |- _ => rewrite E
              end.
  all: try match goal with
       | E : requestRobotsTxt _ _ _ _ _ _ = _ |- _ =>
           apply requestRobotsTxt_more in E; cbn [wk] in E;
           destruct E as (Hfa & Hfh & Hcl & Hrr & Hfr & Hpol & Hb & Hlf & Hld
                          & Hdl & Hpop & Hdis & Hfin & Hdc)
       end.
  all: try match goal with
       | E : requestUrl _ _ _ _ _ _ _ = _ |- _ =>
           pose proof (Emits_requestUrl _ _ _ E) as Hpage;
           apply page_facts in Hpage;
           destruct Hpage as (Hrr & Hfr & _);
           apply requestUrl_more in E; cbn [wk] in E;
           destruct E as (Hfa & Hfh & Hcl & Hpol & Hb & Hlf & Hld & Hdl
                          & Hpop & Hdis & Hfin & Hdc)
       end.
  all: observe2.
  all: rewrite ?Hpop, ?Hdis, ?Hrr, ?Hfr.
  all: repeat apply conj; try assumption; try reflexivity; try tauto.
  all: cbn [negb]; rewrite ?andb_true_r, ?andb_false_r.
  all: try solve [constructor].
  all: try solve [intros ? [=]].
  all: try solve [intuition congruence].
  all: match goal with
       | E : robotsGroup _ = _ |- _ => rewrite E in Hdc; exact Hdc
       end.
Qed.

(** *** From a command to a batch, a pass and a run *)

Section Lift.

(** A relation between the machine before some steps, the machine after
    them and their events, that composes, that holds of steps of the
    control loop which leave the worker alone, and that holds of every
    command. *)
Variable R : Machine W Group -> Machine W Group -> list (Event Node) -> Prop.

Hypothesis R_trans : forall m m1 m2 t1 t2,
  R m m1 t1 -> R m1 m2 t2 -> R m m2 (t1 ++ t2).

Hypothesis R_scaffold : forall m m' tr,
  wk m' = wk m -> forallb (@scaffold_event Node) tr = true -> R m m' tr.

Hypothesis R_command : forall cmd m x m' tr,
  processCommand extender logFunc lib isRobotsTxtUrl cmd m = (x, m', tr) ->
  R m m' tr.

Lemma lift_processBatch batch : forall m ph m' tr,
  processBatch extender logFunc lib isRobotsTxtUrl batch m = (ph, m', tr) ->
  R m m' tr.
Proof.
  induction batch as [|cmd rest IH]; intros m ph m' tr H;
    cbn [processBatch] in H.
  - unfold ret in H. finish_run H. apply R_scaffold; reflexivity.
  - unfold bind at 1 in H.
    destruct (processCommand _ _ _ _ cmd m) as [[x m1] t1] eqn:E1.
    unfold bind at 1, poll_stop in H.
    destruct (stop_ready m1).
    + unfold log, bind, call, emit, ret in H.
      destruct (logFunc _ _ _ _ _) as [[u w] n]. cbn in H. finish_run H.
      apply R_trans with (m1 := m1); [eapply R_command; exact E1|].
      apply R_scaffold; reflexivity.
    + destruct (processBatch _ _ _ _ rest m1) as [[ph2 m2] t2] eqn:E2.
      finish_run H.
      apply R_trans with (m1 := m1); [eapply R_command; exact E1|].
      eapply IH. exact E2.
Qed.

Lemma lift_run_pass m c ph m' tr :
  run_pass extender logFunc lib isRobotsTxtUrl m c ph m' tr -> R m m' tr.
Proof.
  intros [idleChan m0 tr0 m1 tr1 Henter Hsel Hcase ->].
  apply R_trans with (m1 := m1).
  - apply select_takes_worker in Hsel.
    unfold enter_wait in Henter. exec_in Henter.
    all: finish_run Henter.
    all: apply R_scaffold; [exact Hsel|reflexivity].
  - destruct c; cbn [run_case] in Hcase.
    + exec_in Hcase. finish_run Hcase. apply R_scaffold; reflexivity.
    + exec_in Hcase.
      all: finish_run Hcase.
      all: apply R_scaffold; reflexivity.
    + eapply lift_processBatch. exact Hcase.
Qed.

Lemma lift_passes m ph m' tr :
  passes extender logFunc lib isRobotsTxtUrl m ph m' tr -> R m m' tr.
Proof.
  induction 1 as [m|m m1 tr1 c ph m2 tr2 _ IH Hpass].
  - apply R_scaffold; reflexivity.
  - apply R_trans with (m1 := m1); [exact IH|].
    apply lift_run_pass with (c := c) (ph := ph). exact Hpass.
Qed.

End Lift.

Lemma scaffold_facts tr :
  forallb (@scaffold_event Node) tr = true ->
  fetches tr = [] /\ closes tr = [] /\ delays tr = [] /\
  wg_dones tr = 0%nat /\ forallb (@inert Node) tr = true.
Proof.
  induction tr as [|e tr IH]; [cbn; repeat split|].
  intros H. cbn [forallb] in H. apply andb_true_iff in H.
  destruct H as [He Ht]. specialize (IH Ht).
  destruct IH as (? & ? & ? & ? & ?).
  destruct e; cbn in He; try discriminate He; cbn; repeat split; assumption.
Qed.

Lemma not_done_facts tr : forallb (@not_done Node) tr = true -> wg_dones tr = 0%nat.
Proof.
  unfold wg_dones. induction tr as [|e tr IH]; [reflexivity|].
  intros H. cbn [forallb] in H. apply andb_true_iff in H.
  destruct H as [He Ht]. destruct e; cbn in He; try discriminate He; cbn;
    exact (IH Ht).
Qed.

Lemma Emits_processCommand_not_done cmd :
  Emits (@not_done Node) (processCommand extender logFunc lib isRobotsTxtUrl cmd).
Proof.
  unfold processCommand, isAllowedPerRobotsPolicies, requestUrl,
    requestRobotsTxt, fetchUrl, fetchAttempt, setCrawlDelay, visitUrl,
    getRobotsTxtGroup, processLinks, log, ext_Error, sendResponse.
  repeat first [apply Emits_processLinks_loop; reflexivity | emits_step].
Qed.

(** *** The requests of a command *)

(** X3.  Every fetch of a command is for the command's URL, with the
    robots user agent for the robots.txt command and the crawling user
    agent otherwise.  A command makes no request, or one, or a HEAD
    followed by a GET: the first request is a HEAD only when the command
    asks for it and is not the robots.txt command. *)
Theorem X3_requests_of_a_command cmd m x m' tr :
  processCommand extender logFunc lib isRobotsTxtUrl cmd m = (x, m', tr) ->
  Forall (fun f => fr_u f = cmd_u cmd /\
                   fr_agent f = agent_for isRobotsTxtUrl cmd (wk m))
    (fetches tr) /\
  (map fr_head (fetches tr) = [] \/
   map fr_head (fetches tr) = [head_first isRobotsTxtUrl cmd] \/
   head_first isRobotsTxtUrl cmd = true /\
   map fr_head (fetches tr) = [true; false]).
Proof.
  intros H. apply processCommand_more in H.
  destruct H as (Hfa & Hfh & _). split; assumption.
Qed.

(** *** Bodies *)


(** *** The policy *)

(** X5.  The robots policy is replaced only by a robots.txt command whose
    fetch, if it made one, succeeded: a command for another URL leaves the
    policy as it is, and so does a robots.txt command whose fetch failed. *)
Theorem X5_policy_changes_only_with_robots_txt cmd m x m' tr :
  processCommand extender logFunc lib isRobotsTxtUrl cmd m = (x, m', tr) ->
  isRobotsTxtUrl (Some (cmd_u cmd)) = false \/
  forallb fr_ok (fetches tr) = false ->
  robotsGroup (wk m') = robotsGroup (wk m).
Proof.
  intros H. apply processCommand_more in H.
  destruct H as (_ & _ & _ & Hpol & _). exact Hpol.
Qed.

(** *** The wait at the end of a command *)

(** X6.  A command that ends with a final response returns only once the
    crawl delay armed when its last fetch returned has elapsed: the timer
    left pending in [wait] has already delivered. *)
Theorem X6_command_waits_out_the_delay cmd m x m' tr res :
  processCommand extender logFunc lib isRobotsTxtUrl cmd m = (x, m', tr) ->
  final_response tr = Some res ->
  exists l f,
    fetches tr = l ++ [f] /\ fr_result f = inl res /\
    wait (wk m') = Some (fr_finish f + fr_delay f) /\
    fr_finish f + fr_delay f <= clock m'.
Proof.
  intros H Hfin.
  pose proof H as Hp. apply Paced_processCommand in Hp.
  destruct Hp as (_ & _ & _ & _ & _ & Hw & _).
  apply processCommand_more in H.
  destruct H as (_ & _ & _ & _ & _ & _ & _ & _ & _ & Hwait & _).
  destruct (Hwait res Hfin) as (t & Ht & Hle).
  unfold final_response in Hfin.
  destruct (rev (fetches tr)) as [|f l] eqn:Hrev; [discriminate|].
  assert (Hf : fetches tr = rev l ++ [f]).
  { rewrite <- (rev_involutive (fetches tr)), Hrev. reflexivity. }
  destruct (fr_head f); [discriminate|].
  destruct (fr_result f) as [r|e] eqn:Hr; [|discriminate].
  injection Hfin as ->.
  exists (rev l), f. rewrite Hf, last_guard_app in Hw. cbn in Hw.
  unfold guard_after, fr_ok in Hw. rewrite Hr in Hw.
  rewrite Hw in Ht. injection Ht as <-.
  repeat apply conj; auto.
Qed.

(** *** The hooks of the robots.txt command *)

(** X7.  The robots.txt command asks [RequestRobots] once, for its URL and
    with the robots user agent.  Told to use the cache, it fetches nothing
    and does not call [FetchedRobots]; told to fetch, it makes one fetch,
    and calls [FetchedRobots] exactly when that fetch succeeded, whatever
    the status code, with the response and a body that can be read
    again. *)
Theorem X7_hooks_of_the_robots_txt_command cmd m x m' tr :
  processCommand extender logFunc lib isRobotsTxtUrl cmd m = (x, m', tr) ->
  isRobotsTxtUrl (Some (cmd_u cmd)) = true ->
  robots_requests tr = [(cmd_u cmd, robotUserAgent (wk m))] /\
  fetched_robots tr = map reread (responses (fetches tr)) /\
  exists rr,
    robots_answers tr = [rr] /\
    (fst rr = false -> fetches tr = [] /\ fetched_robots tr = []) /\
    (fst rr = true -> List.length (fetches tr) = 1%nat).
Proof.
  intros H Hrobots.
  pose proof H as Hm. apply processCommand_more in Hm.
  destruct Hm as (_ & _ & _ & _ & _ & _ & _ & _ & _ & _ & Hrr & Hfr & _).
  rewrite Hrobots in Hrr, Hfr. repeat apply conj; try assumption.
  command_routes H; try congruence.
  destruct Hrun as (_ & _ & _ & _ & rr & Hans & Hcases).
  exists rr. split; [observe; reflexivity|].
  assert (Hf' : fetches (tr0 ++ tr1) = fetches tr1) by (observe; reflexivity).
  rewrite Hfr, Hf'. destruct (fst rr).
  - split; [discriminate|]. intros _.
    destruct Hcases as [(f & e & -> & _)|(f & r & -> & _)]; reflexivity.
  - split; [|discriminate]. intros _. destruct Hcases as (-> & _).
    split; reflexivity.
Qed.

(** *** Bookkeeping of delays and telemetry *)

(** X8.  Over any number of passes through the control loop: each call of
    [ComputeDelay] is given the delay it answered the time before and the
    telemetry of the latest fetch (none after a fetch that failed), each
    fetch runs under the delay answered last, and the worker ends up
    holding the telemetry of its latest fetch and the delay answered
    last.  Every call is for the worker's host and is given the
    configured delay. *)
Theorem X8_delays_and_telemetry_are_threaded m ph m' tr :
  passes extender logFunc lib isRobotsTxtUrl m ph m' tr ->
  booked isRobotsTxtUrl (lastFetch (wk m)) (lastCrawlDelay (wk m)) tr /\
  lastFetch (wk m') = telemetry_after isRobotsTxtUrl (lastFetch (wk m)) tr /\
  lastCrawlDelay (wk m') = delay_after (lastCrawlDelay (wk m)) tr /\
  Forall (fun c => dr_host c = host (wk m) /\
                   OptsDelay (dr_info c) = crawlDelay (wk m))
    (delays tr).
Proof.
  intros H.
  pose (R := fun (m0 m1 : Machine W Group) (t : list (Event Node)) =>
       (host (wk m1) = host (wk m0) /\ crawlDelay (wk m1) = crawlDelay (wk m0))
       /\ booked isRobotsTxtUrl (lastFetch (wk m0)) (lastCrawlDelay (wk m0)) t
       /\ lastFetch (wk m1) =
          telemetry_after isRobotsTxtUrl (lastFetch (wk m0)) t
       /\ lastCrawlDelay (wk m1) = delay_after (lastCrawlDelay (wk m0)) t
       /\ Forall (fun c => dr_host c = host (wk m0) /\
                           OptsDelay (dr_info c) = crawlDelay (wk m0))
            (delays t)).
  assert (Hgoal : R m m' tr).
  { revert H. apply (lift_passes R); unfold R.
    - intros m0 m1 m2 t1 t2 ((Hh1 & Hc1) & Hb1 & Hl1 & Hd1 & Hf1)
        ((Hh2 & Hc2) & Hb2 & Hl2 & Hd2 & Hf2).
      rewrite booked_app, telemetry_after_app, delay_after_app, delays_app.
      rewrite <- Hl1, <- Hd1. repeat apply conj; try congruence; auto.
      apply Forall_app. split; [exact Hf1|].
      rewrite <- Hh1, <- Hc1. exact Hf2.
    - intros m0 m1 t Hw Hs. apply scaffold_facts in Hs.
      destruct Hs as (_ & _ & Hd & _ & Hi). rewrite Hw, Hd.
      rewrite telemetry_after_inert, delay_after_inert by exact Hi.
      repeat apply conj; auto using booked_inert.
    - intros cmd m0 x m1 t Hc.
      pose proof Hc as Hp. apply Paced_processCommand in Hp.
      destruct Hp as ((Hh & _ & _ & _ & Hcd & _) & _).
      apply processCommand_more in Hc.
      destruct Hc as (_ & _ & _ & _ & Hb & Hl & Hd & _ & _ & _ & _ & _ & Hf).
      repeat apply conj; auto.
      eapply Forall_impl; [|exact Hf]. cbn. intros c (Hch & Hci).
      rewrite Hci. split; [exact Hch|reflexivity]. }
  unfold R in Hgoal. tauto.
Qed.

(** X9.  The calls of [ComputeDelay] made for a command are given the
    worker's host, the configured delay, and the crawl delay of the policy
    in force when the command starts, zero when there is none. *)
Theorem X9_inputs_of_ComputeDelay cmd m x m' tr :
  processCommand extender logFunc lib isRobotsTxtUrl cmd m = (x, m', tr) ->
  Forall (fun c => dr_host c = host (wk m) /\
                   OptsDelay (dr_info c) = crawlDelay (wk m) /\
                   RobotsDelay (dr_info c) =
                     match robotsGroup (wk m) with
                     | Some g => CrawlDelay lib g
                     | None => 0
                     end)
    (delays tr) /\
  List.length (delays tr) = List.length (fetches tr).
Proof.
  intros H. apply processCommand_more in H.
  destruct H as (_ & _ & _ & _ & _ & _ & _ & Hdl & _ & _ & _ & _ & Hf).
  split.
  - eapply Forall_impl; [|exact Hf]. cbn. intros c (Hch & Hci).
    rewrite Hci. repeat split. exact Hch.
  - rewrite <- (length_map dr_result), Hdl, length_map. reflexivity.
Qed.

(** *** The visit *)

(** X10.  When the body of the response can be read, [Visit] is called
    once, with the response carrying a body that can be read again, and
    with the document parsed from the bytes read, whose URL is that of the
    request; when the bytes do not parse as HTML the error is reported with
    kind [CekParseBody] and [Visit] is given no document.  The worker's
    fields are left as they were. *)
Theorem X10_what_the_visitor_is_given res m h m' tr :
  visitUrl extender logFunc lib res m = (h, m', tr) ->
  body_err (RespBody res) = None ->
  visits tr =
    [(reread res,
      match html_Parse lib (body_data (RespBody res)) with
      | inl node => Some (mkDocument node (Request_URL res))
      | inr _ => None
      end)] /\
  (forall e, html_Parse lib (body_data (RespBody res)) = inr e ->
     In (newCrawlError e CekParseBody (Some (Request_URL res))) (errors tr))
  /\ wk m' = wk m.
Proof.
  intros H Hbody. apply visitUrl_more in H.
  destruct H as (Hw & _ & _ & _ & _ & r & _ & Hv & _ & _ & He).
  rewrite Hbody in Hv, He. cbv zeta in Hv. repeat apply conj.
  - exact Hv.
  - intros e Hp. rewrite He, Hp. left. reflexivity.
  - exact Hw.
Qed.

(** X11.  The links a visit reports.  [Visit] answers with links of its
    own and says whether the worker is to harvest the links itself.  If
    not, the links of [Visit] are the result; if so and there is a
    document, the result is what harvesting the document yields and the
    links of [Visit] are dropped; if so and there is no document, an error
    of kind [CekProcessLinks] is reported and the links of [Visit] are the
    result.  [Visited] is called once, with the URL of the request and the
    result. *)
Theorem X11_links_reported_by_a_visit res m h m' tr :
  visitUrl extender logFunc lib res m = (h, m', tr) ->
  exists r res' doc,
    visit_answers tr = [r] /\ visits tr = [(res', doc)] /\
    h = (if snd r then
           match doc with
           | Some d =>
               flat_map (harvest_one lib (Request_URL res))
                 (anchorHrefs lib (doc_node d))
           | None => fst r
           end
         else fst r) /\
    visiteds tr = [(Request_URL res, h)] /\
    (In (newCrawlErrorMessage "No goquery document to process links."
           CekProcessLinks (Some (Request_URL res))) (errors tr) <->
     snd r = true /\ doc = None).
Proof.
  intros H. apply visitUrl_more in H.
  destruct H as (_ & _ & _ & _ & _ & r & Ha & Hv & Hh & Hvd & He).
  cbv zeta in Hv, Hh, He.
  eexists r, _, _. repeat apply conj; try eassumption.
  - rewrite He. intros Hin. apply in_app_or in Hin.
    destruct Hin as [Hin|Hin].
    + destruct (body_err (RespBody res));
        [|destruct (html_Parse lib (body_data (RespBody res)))];
        cbn in Hin; intuition discriminate.
    + destruct (snd r); [|contradiction]. split; [reflexivity|].
      destruct (body_err (RespBody res));
        [|destruct (html_Parse lib (body_data (RespBody res)))];
        try reflexivity; contradiction.
  - intros (Hs & Hd). rewrite He, Hs, Hd. apply in_or_app. right. left.
    reflexivity.
Qed.

(** *** The loop over a batch *)

Lemma processBatch_stopped batch : forall m m' tr,
  processBatch extender logFunc lib isRobotsTxtUrl batch m
    = (Terminated, m', tr) ->
  stop_ready m' = true.
Proof.
  induction batch as [|cmd rest IH]; intros m m' tr H;
    cbn [processBatch] in H.
  - unfold ret in H. discriminate H.
  - unfold bind at 1 in H.
    destruct (processCommand _ _ _ _ cmd m) as [[x m1] t1] eqn:E1.
    unfold bind at 1, poll_stop in H.
    destruct (stop_ready m1) eqn:Hstop.
    + unfold log, bind, call, emit, ret in H.
      destruct (logFunc _ _ _ _ _) as [[u w] n]. cbn in H. finish_run H.
      unfold stop_ready in *. cbn.
      destruct (stopAt m1); [|discriminate]. apply Z.leb_le in Hstop.
      apply Z.leb_le. lia.
    + destruct (processBatch _ _ _ _ rest m1) as [[ph2 m2] t2] eqn:E2.
      finish_run H. eapply IH. exact E2.
Qed.

(** X12.  The commands of a batch are taken in order.  When the loop
    reaches the end of the batch every command has been taken; when it
    returns because the stop signal is ready, the commands taken are an
    initial part of the batch, at least one, and the rest is abandoned. *)
Theorem X12_batch_is_processed_in_order batch m ph m' tr :
  processBatch extender logFunc lib isRobotsTxtUrl batch m = (ph, m', tr) ->
  (ph = WaitingForBatch -> popped tr = map cmd_u batch) /\
  (ph = Terminated ->
   stop_ready m' = true /\
   exists k, (0 < k)%nat /\ popped tr = firstn k (map cmd_u batch)).
Proof.
  revert m ph m' tr.
  induction batch as [|cmd rest IH]; intros m ph m' tr H.
  - cbn [processBatch] in H. unfold ret in H. finish_run H.
    split; [reflexivity|discriminate].
  - split.
    + intros ->. cbn [processBatch] in H. unfold bind at 1 in H.
      destruct (processCommand _ _ _ _ cmd m) as [[x m1] t1] eqn:E1.
      unfold bind at 1, poll_stop in H.
      destruct (stop_ready m1) eqn:Hstop.
      * unfold log, bind, call, emit, ret in H.
        destruct (logFunc _ _ _ _ _) as [[u w] n]. discriminate H.
      * destruct (processBatch _ _ _ _ rest m1) as [[ph2 m2] t2] eqn:E2.
        finish_run H. apply IH in E2. destruct E2 as (Hall & _).
        apply processCommand_more in E1.
        destruct E1 as (_ & _ & _ & _ & _ & _ & _ & _ & Hpop & _).
        rewrite popped_app, Hpop, (Hall eq_refl). reflexivity.
    + intros ->. split; [eapply processBatch_stopped; exact H|].
      cbn [processBatch] in H. unfold bind at 1 in H.
      destruct (processCommand _ _ _ _ cmd m) as [[x m1] t1] eqn:E1.
      apply processCommand_more in E1.
      destruct E1 as (_ & _ & _ & _ & _ & _ & _ & _ & Hpop & _).
      unfold bind at 1, poll_stop in H.
      destruct (stop_ready m1) eqn:Hstop.
      * unfold log, bind, call, emit, ret in H.
        destruct (logFunc _ _ _ _ _) as [[u w] n]. cbn in H. finish_run H.
        exists 1%nat. split; [lia|].
        rewrite popped_app, Hpop. reflexivity.
      * destruct (processBatch _ _ _ _ rest m1) as [[ph2 m2] t2] eqn:E2.
        finish_run H. apply IH in E2. destruct E2 as (_ & Hsome).
        destruct (Hsome eq_refl) as (_ & k & Hk & Hpk).
        exists (S k). split; [lia|].
        rewrite popped_app, Hpop, Hpk. reflexivity.
Qed.

(** The work results of one command: none, or one for the command's URL
    and the worker's host. *)
Lemma processCommand_pushes cmd m x m' tr :
  processCommand extender logFunc lib isRobotsTxtUrl cmd m = (x, m', tr) ->
  pushes tr = [] \/
  exists visited harvested,
    pushes tr =
      [mkWorkerResponse (host (wk m)) visited (Some (cmd_u cmd)) harvested
         false].
Proof.
  intros H. command_routes H.
  - destruct Hrun as (Hp & _). left. observe. reflexivity.
  - destruct Hfail as (l & f & e & _ & _ & _ & _ & _ & Hp & _).
    rewrite Hrob in *. right. observe. eauto.
  - destruct Hdecl as (_ & _ & Hp & _). left. observe. reflexivity.
  - destruct Hfinal as (l & f & res & _ & _ & _ & _ & _ & Hfin).
    rewrite Hrob in *. right. observe.
    destruct (is2xx (StatusCode res)).
    + destruct Hfin as (h & _ & _ & Hp & _). rewrite Hp. eauto.
    + destruct Hfin as (Hp & _). rewrite Hp. eauto.
  - right. observe. eauto.
Qed.

(** X13.  The loop over a batch pushes at most one work result for each
    command of the batch, each for the worker's host and for the URL of a
    command of the batch, and none with the idle-death flag. *)
Theorem X13_work_results_of_a_batch batch m ph m' tr :
  processBatch extender logFunc lib isRobotsTxtUrl batch m = (ph, m', tr) ->
  (List.length (pushes tr) <= List.length batch)%nat /\
  Forall (fun r => wr_host r = host (wk m) /\ wr_idleDeath r = false /\
                   exists cmd, In cmd batch /\ wr_u r = Some (cmd_u cmd))
    (pushes tr).
Proof.
  revert m ph m' tr.
  induction batch as [|cmd rest IH]; intros m ph m' tr H;
    cbn [processBatch] in H.
  - unfold ret in H. finish_run H. split; [cbn; lia|constructor].
  - unfold bind at 1 in H.
    destruct (processCommand _ _ _ _ cmd m) as [[x m1] t1] eqn:E1.
    pose proof E1 as Hp. apply Paced_processCommand in Hp.
    destruct Hp as ((Hh & _) & _).
    apply processCommand_pushes in E1.
    assert (Hone : (List.length (pushes t1) <= 1)%nat /\
                   Forall (fun r => wr_host r = host (wk m) /\
                                    wr_idleDeath r = false /\
                                    exists c, In c (cmd :: rest) /\
                                              wr_u r = Some (cmd_u c))
                     (pushes t1)).
    { destruct E1 as [->|(v & hv & ->)]; cbn; split; try lia;
        repeat constructor. exists cmd. split; [left|]; reflexivity. }
    destruct Hone as (Hlen & Hall).
    unfold bind at 1, poll_stop in H.
    destruct (stop_ready m1).
    + unfold log, bind, call, emit, ret in H.
      destruct (logFunc _ _ _ _ _) as [[u w] n]. cbn in H. finish_run H.
      rewrite pushes_app. cbn. rewrite app_nil_r. split; [lia|exact Hall].
    + destruct (processBatch _ _ _ _ rest m1) as [[ph2 m2] t2] eqn:E2.
      finish_run H. apply IH in E2. destruct E2 as (Hlen2 & Hall2).
      rewrite pushes_app, length_app. split; [cbn; lia|].
      apply Forall_app. split; [exact Hall|].
      eapply Forall_impl; [|exact Hall2]. cbn.
      intros r (Hr & Hi & c & Hc & Hu). rewrite Hr, Hh.
      repeat split; auto. exists c. split; [right; exact Hc|exact Hu].
Qed.

(** *** The control loop and its end *)

Lemma select_takes_stopAt m idleChan c m1 :
  select_takes m idleChan c m1 -> stopAt m1 = stopAt m.
Proof. intros H. destruct H; reflexivity. Qed.

(** A pass keeps the configuration and the instant of the stop signal,
    and does not go back in time. *)
Lemma run_pass_keeps m c ph m' tr :
  run_pass extender logFunc lib isRobotsTxtUrl m c ph m' tr ->
  same_config (wk m) (wk m') /\ stopAt m' = stopAt m /\ clock m <= clock m'.
Proof.
  intros [idleChan m0 tr0 m1 tr1 Henter Hsel Hcase ->].
  apply Paced_enter_wait in Henter.
  apply Paced_run_case in Hcase.
  pose proof (select_takes_worker Hsel) as Hw.
  pose proof (select_takes_stopAt Hsel) as Hs.
  pose proof (select_takes_clock Hsel) as Hc.
  destruct Henter as (Hc0 & Hs0 & _ & Ht0 & _).
  destruct Hcase as (Hc1 & Hs1 & _ & Ht1 & _).
  rewrite Hw in Hc1. split; [|split].
  - eapply same_config_trans; eassumption.
  - congruence.
  - lia.
Qed.

Lemma passes_keeps m ph m' tr :
  passes extender logFunc lib isRobotsTxtUrl m ph m' tr ->
  same_config (wk m) (wk m') /\ stopAt m' = stopAt m /\ clock m <= clock m'.
Proof.
  induction 1 as [m|m m1 tr1 c ph m2 tr2 _ IH Hpass].
  - split; [apply same_config_refl|split; [reflexivity|lia]].
  - apply run_pass_keeps in Hpass.
    destruct IH as (Hc1 & Hs1 & Ht1). destruct Hpass as (Hc2 & Hs2 & Ht2).
    split; [|split].
    + eapply same_config_trans; eassumption.
    + congruence.
    + lia.
Qed.

Lemma passes_not_done m ph m' tr :
  passes extender logFunc lib isRobotsTxtUrl m ph m' tr ->
  forallb (@not_done Node) tr = true.
Proof.
  apply (lift_passes (fun _ _ t => forallb (@not_done Node) t = true)).
  - intros _ _ _ t1 t2 H1 H2. rewrite forallb_app, H1, H2. reflexivity.
  - intros _ _ t _ Hs. rewrite forallb_forall in *. intros e He.
    specialize (Hs e He). destruct e; try reflexivity. discriminate Hs.
  - intros cmd m0 x m1 t H. eapply Emits_processCommand_not_done. exact H.
Qed.

(** X14.  [run] returns only when the stop signal has become ready or the
    worker has an idle timeout; and whenever it returns it has called
    [wg.Done] once, as the last thing it did, after logging that the
    worker is done. *)
Theorem X14_run_returns_on_stop_or_idle m m' tr :
  run extender logFunc lib isRobotsTxtUrl m m' tr ->
  ((exists t, stopAt m = Some t /\ t <= clock m') \/ 0 < idleTTL (wk m)) /\
  wg_dones tr = 1%nat /\
  exists tr1, tr = tr1 ++ [EvLog LogInfo "worker done.\n" []; EvWgDone].
Proof.
  intros [m1 tr1 tr2 Hp Hexit ->].
  unfold run_exit, log, bind, call, emit in Hexit.
  destruct (logFunc _ _ _ _ _) as [[u w] n]. cbn in Hexit. finish_run Hexit.
  pose proof (passes_not_done Hp) as Hnd. apply not_done_facts in Hnd.
  repeat apply conj.
  - inversion Hp as [|m0 m2 t1 c ph m3 t2 Hbefore Hlast]; subst.
    apply passes_keeps in Hbefore.
    destruct Hbefore as ((_ & _ & _ & _ & _ & Httl) & Hs & _).
    pose proof (run_pass_keeps Hlast) as (_ & Hs1 & _).
    destruct Hlast as [idleChan m4 t3 m5 t4 Henter Hsel Hcase _].
    pose proof Hcase as Hpc. apply Paced_run_case in Hpc.
    destruct Hpc as (_ & Hs5 & _ & Ht5 & _).
    pose proof (select_takes_stopAt Hsel) as Hs4.
    apply enter_wait_inv in Henter.
    destruct Henter as (Hw4 & Hst4 & _ & _ & _ & _ & Hidle).
    destruct c as [| |batch].
    + left. inversion Hsel as [t wake Ht Hwake Hready| |]; subst.
      exists t. cbn in *. split; [congruence|].
      unfold ready_from in Hready. lia.
    + right. inversion Hsel as [|t wake Ht Hwake Hready|]; subst.
      destruct (0 <? idleTTL (wk m2)) eqn:E; [|discriminate Ht].
      apply Z.ltb_lt in E. rewrite <- Httl. exact E.
    + left. cbn [run_case] in Hcase. apply processBatch_stopped in Hcase.
      unfold stop_ready in Hcase.
      destruct (stopAt m1) as [t|] eqn:Est; [|discriminate].
      apply Z.leb_le in Hcase. exists t. cbn. split; [congruence|lia].
  - rewrite wg_dones_app, Hnd. reflexivity.
  - exists tr1. reflexivity.
Qed.

(** X15.  A pass that takes the idle timeout pushes one work result, for
    the worker's host, with no URL, no harvested link and the idle-death
    flag, provided [isRobotsTxtUrl] answers no for a nil URL; it fetches
    nothing and terminates the worker. *)
Theorem X15_idle_timeout_pushes_one_result m ph m' tr :
  run_pass extender logFunc lib isRobotsTxtUrl m CaseIdle ph m' tr ->
  isRobotsTxtUrl None = false ->
  pushes tr = [mkWorkerResponse (host (wk m)) false None [] true] /\
  fetches tr = [] /\ ph = Terminated /\ 0 < idleTTL (wk m).
Proof.
  intros [idleChan m0 tr0 m1 tr1 Henter Hsel Hcase ->] Hnil.
  apply enter_wait_inv in Henter.
  destruct Henter as (Hwk & _ & _ & _ & Hp0 & Hf0 & Hidle).
  pose proof (select_takes_worker Hsel) as Hw1.
  inversion Hsel as [|t wake Ht Hwake Hready|]; subst.
  destruct (0 <? idleTTL (wk m)) eqn:Httl; [|discriminate Ht].
  apply Z.ltb_lt in Httl.
  cbn [run_case] in Hcase. exec_in Hcase. finish_run Hcase.
  cbn [wk] in *. observe. rewrite Hwk. repeat split. exact Httl.
Qed.

(** *** The loop of fetchUrl *)

(** X16.  The loop of [fetchUrl], which the source writes without a
    bound, never makes a third pass: run with a bound of two passes or
    more it returns, and what it returns and does is the same whatever the
    bound. *)
Theorem X16_fetch_loop_makes_at_most_two_passes n u agent head m :
  fetchLoop extender logFunc lib isRobotsTxtUrl (S (S n)) u agent head [] m =
  fetchLoop extender logFunc lib isRobotsTxtUrl 2 u agent head [] m /\
  exists r m' tr,
    fetchLoop extender logFunc lib isRobotsTxtUrl 2 u agent head [] m
      = (Some r, m', tr).
Proof.
  rewrite !fetchLoop_fetchUrl.
  destruct (fetchUrl _ _ _ _ u agent head m) as [[r m'] tr].
  split; [reflexivity|]. exists r, m', tr. reflexivity.
Qed.

End Proofs.


(** ** Runs of the scenario *)

Import Scenario.

(** Evaluate a run of the scenario and hand the result to a theorem. *)
Ltac by_running := vm_compute; reflexivity.

(** C1, the claim as stated fails: the robots.txt command, fetched with
    status 200 and with no GET declined, yields no work result, not one. *)
Lemma C1_robots_command_yields_no_result :
  isRobotsTxtUrl (Some (cmd_u robots_cmd)) = true /\
  declined (trace_of run_robots_200) = false /\
  List.length (pushes (trace_of run_robots_200)) <> 1%nat.
Proof. vm_compute. repeat split; discriminate. Qed.

(** C1, an instance: a page fetched with status 200 yields one work
    result. *)
Lemma C1_one_result_witness :
  exists visited harvested,
    pushes (trace_of run_page_200) =
      [mkWorkerResponse "h" visited (Some (url "/p")) harvested false].
Proof.
  assert (H : processCommand fetching logFunc lib isRobotsTxtUrl
                (get_cmd "/p") (fresh [(inl (ok html "/p"), 5%N)])
              = (tt, state_of run_page_200, trace_of run_page_200))
    by by_running.
  generalize (C1_one_result_except_robots_and_declined _ _ _ _ _ _ H).
  vm_compute. exact (fun P => P).
Defined.

(** C2, an instance: the HEAD succeeds, the GET is declined; one fetch and
    no work result. *)
Lemma C2_declined_get_witness :
  pushes (trace_of run_head_declined) = [] /\
  exists f res,
    fetches (trace_of run_head_declined) = [f] /\
    fr_head f = true /\ fr_result f = inl res.
Proof.
  assert (H : processCommand declining logFunc lib isRobotsTxtUrl
                (head_cmd "/p") (fresh [(inl (ok html "/p"), 5%N)])
              = (tt, state_of run_head_declined, trace_of run_head_declined))
    by by_running.
  assert (Hd : declined (trace_of run_head_declined) = true) by by_running.
  exact (C2_declined_get_fetches_and_pushes_nothing _ _ _ _ _ _ H Hd).
Defined.

(** The pass of the scenario that takes the first queued batch is a pass
    of the control loop, when the batch is among the communications that
    can proceed first. *)
Ltac first_batch_pass :=
  eapply run_pass_intro;
  [ by_running
  | eapply take_batch; [by_running | by_running | vm_compute; discriminate]
  | by_running
  | by_running ].



(** In that run the delay answered for the HEAD is two seconds, and the
    GET starts at two seconds and 3ns. *)
Lemma C3_two_seconds_after_the_head :
  map dr_result (delays (trace_of (take_first_batch fetching queue_head_get)))
    = [2 * second; 2 * second] /\
  map fr_start (fetches (trace_of (take_first_batch fetching queue_head_get)))
    = [0; 2 * second + 3] /\
  map fr_finish
    (fetches (trace_of (take_first_batch fetching queue_head_get)))
    = [3; 2 * second + 7].
Proof. repeat apply conj; by_running. Qed.

(** C4, the failing input: a fetch that starts at 0 and returns at 5ns.
    The recorded duration is the start less the return. *)
Lemma C4_duration_witness :
  exists tr0 start finish d,
    trace_of attempt_5ns =
      tr0 ++ [EvFetch (url "/p") "crawler" false start finish d
                (inl (ok html "/p"))] /\
    start <= finish /\
    lastFetch (wk (state_of attempt_5ns)) =
      Some (mkFetchInfo (time_Sub start finish) 200 false false) /\
    time_Sub start finish <= 0 /\
    (start < finish -> time_Sub start finish < 0).
Proof.
  assert (H : fetchAttempt fetching logFunc lib isRobotsTxtUrl (url "/p")
                "crawler" false (fresh [(inl (ok html "/p"), 5%N)])
              = (Some (ok html "/p"), state_of attempt_5ns,
                 trace_of attempt_5ns))
    by by_running.
  exact (C4_recorded_duration_is_start_minus_return _ _ _ _ _ _ _ _ H).
Defined.

(** C4, the divergence: the fetch took 5ns and is recorded as having taken
    -5ns, which is no elapsed time. *)
Lemma C4_five_ns_fetch_is_recorded_as_minus_five :
  fetches (trace_of attempt_5ns) =
    [mkFetchRec (url "/p") "crawler" false 0 5 second (inl (ok html "/p"))] /\
  lastFetch (wk (state_of attempt_5ns)) =
    Some (mkFetchInfo (-5) 200 false false).
Proof. split; by_running. Qed.

(** C5, the claim as stated fails: with the stop signal ready and a batch
    queued from the start, the pass that takes the batch is a pass of the
    control loop; in it the worker fetches and pushes a work result. *)
Lemma C5_batch_taken_while_stop_is_ready :
  stop_ready queue_and_stop = true /\
  run_pass fetching logFunc lib isRobotsTxtUrl queue_and_stop
    (CaseBatch [get_cmd "/p"])
    (fst (fst (take_first_batch fetching queue_and_stop)))
    (state_of (take_first_batch fetching queue_and_stop))
    (trace_of (take_first_batch fetching queue_and_stop)) /\
  pushes (trace_of (take_first_batch fetching queue_and_stop)) <> [].
Proof.
  split; [by_running | split; [first_batch_pass | vm_compute; discriminate]].
Qed.

(** C5, an instance: only the stop signal is ready; the pass that takes it
    terminates the worker, which has pushed and fetched nothing. *)
Lemma C5_stop_witness :
  fst (fst (take_stop_signal fetching stop_only)) = Terminated /\
  pushes (trace_of (take_stop_signal fetching stop_only)) = [] /\
  fetches (trace_of (take_stop_signal fetching stop_only)) = [].
Proof.
  assert (H : run_pass fetching logFunc lib isRobotsTxtUrl stop_only CaseStop
                (fst (fst (take_stop_signal fetching stop_only)))
                (state_of (take_stop_signal fetching stop_only))
                (trace_of (take_stop_signal fetching stop_only))).
  { eapply run_pass_intro;
      [ by_running
      | eapply take_stop; [by_running | by_running | vm_compute; discriminate]
      | by_running
      | by_running ]. }
  exact (proj1 (C5_stop_has_no_precedence_in_select H) eq_refl).
Defined.

(** C6, the claim as stated fails: the fetch of robots.txt fails at the
    transport level and the error is reported, yet no work result is pushed
    for the command. *)
Lemma C6_failed_robots_fetch_pushes_nothing :
  fetches (trace_of run_robots_unreachable) =
    [mkFetchRec (url "/robots.txt") "robot" false 0 5 second
       (inr "connection refused")] /\
  errors (trace_of run_robots_unreachable) =
    [newCrawlError "connection refused" CekFetch
       (Some (url "/robots.txt"))] /\
  pushes (trace_of run_robots_unreachable) = [].
Proof. repeat split; by_running. Qed.

(** C6, an instance: the fetch of a page is refused. *)
Lemma C6_fetch_failure_witness :
  (exists l,
     fetches (trace_of run_page_unreachable) = l ++ [refused_fetch] /\
     forallb fr_ok l = true) /\
  lastFetch (wk (state_of run_page_unreachable)) = None /\
  In (newCrawlError "connection refused" CekFetch (Some (url "/p")))
     (errors (trace_of run_page_unreachable)) /\
  visits (trace_of run_page_unreachable) = [] /\
  pushes (trace_of run_page_unreachable) =
    [mkWorkerResponse "h" false (Some (url "/p")) [] false].
Proof.
  assert (H : processCommand fetching logFunc lib isRobotsTxtUrl
                (get_cmd "/p") (fresh [(inr "connection refused", 5%N)])
              = (tt, state_of run_page_unreachable,
                 trace_of run_page_unreachable))
    by by_running.
  assert (Hf : fetches (trace_of run_page_unreachable) = [refused_fetch])
    by by_running.
  assert (Hin : In refused_fetch (fetches (trace_of run_page_unreachable)))
    by (rewrite Hf; left; reflexivity).
  destruct (C6_fetch_failure_is_reported_and_not_fatal _ _ _ _ _ _
              refused_fetch H Hin eq_refl)
    as (Hl & Hlast & Herr & Hvis & Hpush & _).
  revert Hl Hlast Herr Hvis Hpush. vm_compute.
  exact (fun a b c d e => conj a (conj b (conj c (conj d e)))).
Defined.

(** C7, the claim as stated fails: the robots.txt command's response has
    status 404, and neither is an error reported nor a work result pushed;
    and when its response has status 200, nothing is visited and no work
    result is pushed. *)
Lemma C7_robots_response_is_not_classified :
  (final_response (trace_of run_robots_404)
     = Some (not_found "/robots.txt") /\
   errors (trace_of run_robots_404) = [] /\
   pushes (trace_of run_robots_404) = []) /\
  (final_response (trace_of run_robots_200) = Some (ok html "/robots.txt") /\
   visits (trace_of run_robots_200) = [] /\
   pushes (trace_of run_robots_200) = []).
Proof. repeat split; by_running. Qed.

(** C7, two instances: a page answered with status 404, and a page
    answered with status 200. *)
Lemma C7_status_code_witness :
  (errors (trace_of run_page_404) =
     [newCrawlErrorMessage "404 Not Found" CekHttpStatusCode
        (Some (url "/p"))] /\
   visits (trace_of run_page_404) = [] /\
   visiteds (trace_of run_page_404) = [] /\
   pushes (trace_of run_page_404) =
     [mkWorkerResponse "h" false (Some (url "/p")) [] false]) /\
  (exists harvested res' doc,
     pushes (trace_of run_page_200) =
       [mkWorkerResponse "h" true (Some (url "/p")) harvested false] /\
     visits (trace_of run_page_200) = [(res', doc)] /\
     visiteds (trace_of run_page_200) = [(url "/p", harvested)]).
Proof.
  assert (H404 : processCommand fetching logFunc lib isRobotsTxtUrl
                   (get_cmd "/p") (fresh [(inl (not_found "/p"), 5%N)])
                 = (tt, state_of run_page_404, trace_of run_page_404))
    by by_running.
  assert (F404 : final_response (trace_of run_page_404)
                 = Some (not_found "/p")) by by_running.
  assert (H200 : processCommand fetching logFunc lib isRobotsTxtUrl
                   (get_cmd "/p") (fresh [(inl (ok html "/p"), 5%N)])
                 = (tt, state_of run_page_200, trace_of run_page_200))
    by by_running.
  assert (F200 : final_response (trace_of run_page_200)
                 = Some (ok html "/p")) by by_running.
  assert (N404 : ~ 200 <= StatusCode (not_found "/p") < 300)
    by (cbn; lia).
  assert (P200 : 200 <= StatusCode (ok html "/p") < 300) by (cbn; lia).
  generalize
    (proj2 (C7_status_code_decides_the_visit _ _ _ _ _ _ H404 eq_refl F404)
       N404)
    (proj1 (C7_status_code_decides_the_visit _ _ _ _ _ _ H200 eq_refl F200)
       P200).
  vm_compute. exact (fun a b => conj a b).
Defined.

(** C8, an instance: the worker holds a policy that disallows [/priv]; the
    cache then supplies bytes that do not parse.  The policy is gone and
    [/priv/x] is allowed. *)
Lemma C8_unparsable_robots_witness :
  robotsGroup (wk (state_of run_robots_cached_bad)) = None /\
  In (newCrawlError "invalid robots.txt" CekParseRobots None)
     (errors (trace_of run_robots_cached_bad)) /\
  isAllowedPerRobotsPolicies logFunc lib (url "/priv/x")
    (state_of run_robots_cached_bad)
    = (true, state_of run_robots_cached_bad, []) /\
  isAllowedPerRobotsPolicies (Node:=list string) logFunc lib (url "/priv/x")
    (machine polite_worker [] None [])
    = (false, machine polite_worker [] None [],
       [EvLog LogIgnored "ignored on robots.txt policy: %s\n"
          [ArgURL (url "/priv/x")]]).
Proof.
  assert (H : processCommand (caching [Byte.x00]) logFunc lib isRobotsTxtUrl
                robots_cmd (machine polite_worker [] None [])
              = (tt, state_of run_robots_cached_bad,
                 trace_of run_robots_cached_bad))
    by by_running.
  assert (Hbad : (exists b,
                    robots_answers (trace_of run_robots_cached_bad)
                      = [(false, b)] /\
                    robotstxt_FromBytes lib b = inr "invalid robots.txt") \/
                 (exists res,
                    final_response (trace_of run_robots_cached_bad)
                      = Some res /\
                    body_err (RespBody res) = None /\
                    robotstxt_FromBytes lib (body_data (RespBody res))
                      = inr "invalid robots.txt")).
  { left. exists [Byte.x00]. split; by_running. }
  destruct (C8_unparsable_robots_txt_means_no_policy _ _ _ _ _ _ H eq_refl
              Hbad)
    as (Hg & Herr & Hall & _).
  assert (Hwas : isAllowedPerRobotsPolicies (Node:=list string) logFunc lib
                   (url "/priv/x") (machine polite_worker [] None [])
                 = (false, machine polite_worker [] None [],
                    [EvLog LogIgnored "ignored on robots.txt policy: %s\n"
                       [ArgURL (url "/priv/x")]]))
    by by_running.
  generalize Hg Herr (Hall (url "/priv/x")) Hwas. vm_compute.
  exact (fun a b c d => conj a (conj b (conj c d))).
Defined.

(** C9, an instance: the anchors [#frag], [/x] and [%zz] of a page at
    [http://h/p] yield [http://h/x] alone; the third is logged as ignored
    and no error is reported. *)
Lemma C9_harvested_links_witness :
  fst (fst harvest_run) = [url "/x"] /\
  ignored (trace_of harvest_run) =
    [("ignore on unparsable policy %s: %s\n",
      [ArgString "%zz"; ArgString "invalid URL escape"])] /\
  errors (trace_of harvest_run) = [].
Proof.
  assert (H : processLinks (Group:=string) logFunc lib page_doc (fresh [])
              = (fst (fst harvest_run), state_of harvest_run,
                 trace_of harvest_run))
    by by_running.
  destruct (C9_harvested_links _ _ _ _ H) as (Hr & Hi & He & _).
  revert Hr Hi He. vm_compute. exact (fun a b c => conj a (conj b c)).
Defined.

(** C10, the claim as stated fails: the response to the robots.txt command
    has status 200 and a body that cannot be read; neither [Visit] nor
    [Visited] is called and no work result is pushed. *)
Lemma C10_unreadable_robots_body_is_not_visited :
  final_response (trace_of run_robots_broken)
    = Some (ok broken "/robots.txt") /\
  200 <= StatusCode (ok broken "/robots.txt") < 300 /\
  body_err (RespBody (ok broken "/robots.txt")) = Some "unexpected EOF" /\
  visits (trace_of run_robots_broken) = [] /\
  visiteds (trace_of run_robots_broken) = [] /\
  pushes (trace_of run_robots_broken) = [].
Proof.
  split; [by_running|]. split; [cbn; lia|]. repeat split; by_running.
Qed.

(** C10, an instance: a page answered with status 200 and a body that
    cannot be read. *)
Lemma C10_unreadable_body_witness :
  exists harvested,
    visits (trace_of run_page_broken) = [(ok broken "/p", None)] /\
    visiteds (trace_of run_page_broken) = [(url "/p", harvested)] /\
    pushes (trace_of run_page_broken) =
      [mkWorkerResponse "h" true (Some (url "/p")) harvested false] /\
    In (newCrawlError "unexpected EOF" CekReadBody (Some (url "/p")))
       (errors (trace_of run_page_broken)).
Proof.
  assert (H : processCommand fetching logFunc lib isRobotsTxtUrl
                (get_cmd "/p") (fresh [(inl (ok broken "/p"), 5%N)])
              = (tt, state_of run_page_broken, trace_of run_page_broken))
    by by_running.
  assert (F : final_response (trace_of run_page_broken)
              = Some (ok broken "/p")) by by_running.
  assert (Hc : 200 <= StatusCode (ok broken "/p") < 300) by (cbn; lia).
  generalize (C10_unreadable_body_is_still_visited _ _ _ _ _ _ H eq_refl F
                Hc eq_refl).
  vm_compute. exact (fun P => P).
Defined.

(** ** Runs for the further properties *)

(** X1, an instance: [/priv/x] under a policy that disallows [/priv]. *)
Lemma X1_disallowed_witness :
  fetches (trace_of run_disallowed) = [] /\
  delays (trace_of run_disallowed) = [] /\
  disalloweds (trace_of run_disallowed) = [url "/priv/x"] /\
  ignored (trace_of run_disallowed) =
    [("ignored on robots.txt policy: %s\n", [ArgURL (url "/priv/x")])] /\
  pushes (trace_of run_disallowed) =
    [mkWorkerResponse "h" false (Some (url "/priv/x")) [] false] /\
  errors (trace_of run_disallowed) = [] /\
  visits (trace_of run_disallowed) = [] /\
  wk (state_of run_disallowed) = polite_worker.
Proof.
  assert (H : processCommand fetching logFunc lib isRobotsTxtUrl
                (get_cmd "/priv/x") (machine polite_worker [] None [])
              = (tt, state_of run_disallowed, trace_of run_disallowed))
    by by_running.
  assert (Hrob : isRobotsTxtUrl (Some (cmd_u (get_cmd "/priv/x"))) = false)
    by reflexivity.
  assert (Hg : robotsGroup (wk (machine polite_worker [] None []))
               = Some "/priv") by reflexivity.
  assert (Ht : Test lib "/priv" (Path (cmd_u (get_cmd "/priv/x"))) = false)
    by reflexivity.
  exact (X1_disallowed_url_is_reported_and_not_fetched _ _ _ _ _ _ H Hrob Hg
           Ht).
Defined.

(** X2, an instance: a page fetched with status 200. *)
Lemma X2_callbacks_witness :
  forallb (@page_event (list string)) (trace_of run_page_200) = true.
Proof.
  assert (H : processCommand fetching logFunc lib isRobotsTxtUrl
                (get_cmd "/p") (fresh [(inl (ok html "/p"), 5%N)])
              = (tt, state_of run_page_200, trace_of run_page_200))
    by by_running.
  exact (X2_callbacks_of_a_command _ _ _ _ _ _ H).
Defined.

(** X3, an instance: a HEAD followed by the GET. *)
Lemma X3_requests_witness :
  Forall (fun f => fr_u f = url "/a" /\ fr_agent f = "crawler")
    (fetches (trace_of run_head_get)) /\
  (map fr_head (fetches (trace_of run_head_get)) = [] \/
   map fr_head (fetches (trace_of run_head_get)) = [true] \/
   true = true /\ map fr_head (fetches (trace_of run_head_get)) = [true; false]).
Proof.
  assert (H : processCommand fetching logFunc lib isRobotsTxtUrl
                (head_cmd "/a")
                (machine polite_worker
                   [(inl (ok html "/a"), 3%N); (inl (ok html "/a"), 4%N)]
                   None [])
              = (tt, state_of run_head_get, trace_of run_head_get))
    by by_running.
  exact (X3_requests_of_a_command _ _ _ _ _ _ H).
Defined.

(** The passes of a worker that takes the batch of [queue_head_get]. *)
Lemma passes_head_get :
  passes fetching logFunc lib isRobotsTxtUrl queue_head_get
    (fst (fst (take_first_batch fetching queue_head_get)))
    (state_of (take_first_batch fetching queue_head_get))
    (trace_of (take_first_batch fetching queue_head_get)).
Proof.
  assert (Hpass : run_pass fetching logFunc lib isRobotsTxtUrl queue_head_get
                    (CaseBatch [head_cmd "/a"])
                    (fst (fst (take_first_batch fetching queue_head_get)))
                    (state_of (take_first_batch fetching queue_head_get))
                    (trace_of (take_first_batch fetching queue_head_get)))
    by first_batch_pass.
  pose proof (passes_more
                (passes_none fetching logFunc lib isRobotsTxtUrl
                   queue_head_get) Hpass) as Hpasses.
  rewrite app_nil_l in Hpasses. exact Hpasses.
Defined.


(** X5, an instance: the fetch of robots.txt is refused and the policy
    stays. *)
Lemma X5_policy_witness :
  robotsGroup (wk (state_of run_robots_refused)) = Some "/priv".
Proof.
  assert (H : processCommand fetching logFunc lib isRobotsTxtUrl robots_cmd
                (machine polite_worker [(inr "connection refused", 5%N)]
                   None [])
              = (tt, state_of run_robots_refused,
                 trace_of run_robots_refused))
    by by_running.
  assert (Hf : isRobotsTxtUrl (Some (cmd_u robots_cmd)) = false \/
               forallb fr_ok (fetches (trace_of run_robots_refused)) = false)
    by (right; by_running).
  exact (X5_policy_changes_only_with_robots_txt _ _ _ _ _ _ H Hf).
Defined.

(** X6, an instance: a page fetched with status 200. *)
Lemma X6_wait_witness :
  exists l f,
    fetches (trace_of run_page_200) = l ++ [f] /\
    fr_result f = inl (ok html "/p") /\
    wait (wk (state_of run_page_200)) = Some (fr_finish f + fr_delay f) /\
    fr_finish f + fr_delay f <= clock (state_of run_page_200).
Proof.
  assert (H : processCommand fetching logFunc lib isRobotsTxtUrl
                (get_cmd "/p") (fresh [(inl (ok html "/p"), 5%N)])
              = (tt, state_of run_page_200, trace_of run_page_200))
    by by_running.
  assert (F : final_response (trace_of run_page_200) = Some (ok html "/p"))
    by by_running.
  exact (X6_command_waits_out_the_delay _ _ _ _ _ _ H F).
Defined.

(** X7, an instance: robots.txt fetched with status 200. *)
Lemma X7_robots_hooks_witness :
  robots_requests (trace_of run_robots_200) = [(url "/robots.txt", "robot")]
  /\
  fetched_robots (trace_of run_robots_200) =
    map reread (responses (fetches (trace_of run_robots_200))) /\
  exists rr,
    robots_answers (trace_of run_robots_200) = [rr] /\
    (fst rr = false ->
     fetches (trace_of run_robots_200) = [] /\
     fetched_robots (trace_of run_robots_200) = []) /\
    (fst rr = true ->
     List.length (fetches (trace_of run_robots_200)) = 1%nat).
Proof.
  assert (H : processCommand fetching logFunc lib isRobotsTxtUrl robots_cmd
                (fresh [(inl (ok html "/robots.txt"), 5%N)])
              = (tt, state_of run_robots_200, trace_of run_robots_200))
    by by_running.
  assert (Hrob : isRobotsTxtUrl (Some (cmd_u robots_cmd)) = true)
    by reflexivity.
  exact (X7_hooks_of_the_robots_txt_command _ _ _ _ _ _ H Hrob).
Defined.

(** X8, an instance: the HEAD and the GET of [queue_head_get]. *)
Lemma X8_bookkeeping_witness :
  booked isRobotsTxtUrl (lastFetch (wk queue_head_get))
    (lastCrawlDelay (wk queue_head_get))
    (trace_of (take_first_batch fetching queue_head_get)) /\
  lastFetch (wk (state_of (take_first_batch fetching queue_head_get))) =
    telemetry_after isRobotsTxtUrl (lastFetch (wk queue_head_get))
      (trace_of (take_first_batch fetching queue_head_get)) /\
  lastCrawlDelay (wk (state_of (take_first_batch fetching queue_head_get))) =
    delay_after (lastCrawlDelay (wk queue_head_get))
      (trace_of (take_first_batch fetching queue_head_get)) /\
  Forall (fun c => dr_host c = host (wk queue_head_get) /\
                   OptsDelay (dr_info c) = crawlDelay (wk queue_head_get))
    (delays (trace_of (take_first_batch fetching queue_head_get))).
Proof. exact (X8_delays_and_telemetry_are_threaded passes_head_get). Defined.

(** X9, an instance: a HEAD followed by the GET, under a policy that asks
    for two seconds. *)
Lemma X9_inputs_witness :
  Forall (fun c => dr_host c = "h" /\ OptsDelay (dr_info c) = second /\
                   RobotsDelay (dr_info c) = 2 * second)
    (delays (trace_of run_head_get)) /\
  List.length (delays (trace_of run_head_get)) =
  List.length (fetches (trace_of run_head_get)).
Proof.
  assert (H : processCommand fetching logFunc lib isRobotsTxtUrl
                (head_cmd "/a")
                (machine polite_worker
                   [(inl (ok html "/a"), 3%N); (inl (ok html "/a"), 4%N)]
                   None [])
              = (tt, state_of run_head_get, trace_of run_head_get))
    by by_running.
  exact (X9_inputs_of_ComputeDelay _ _ _ _ _ _ H).
Defined.

(** X10, an instance: the visit of a page whose body parses. *)
Lemma X10_visitor_witness :
  visits (trace_of visit_page) =
    [(reread (ok html "/p"),
      Some (mkDocument ["#frag"; "/x"; "%zz"] (url "/p")))] /\
  (forall e, html_Parse lib (body_data (RespBody (ok html "/p"))) = inr e ->
     In (newCrawlError e CekParseBody (Some (url "/p")))
        (errors (trace_of visit_page))) /\
  wk (state_of visit_page) = worker0.
Proof.
  assert (H : visitUrl fetching logFunc lib (ok html "/p") (fresh [])
              = (fst (fst visit_page), state_of visit_page,
                 trace_of visit_page))
    by by_running.
  assert (Hb : body_err (RespBody (ok html "/p")) = None) by reflexivity.
  exact (X10_what_the_visitor_is_given _ _ _ _ _ H Hb).
Defined.

(** X11, an instance: the same visit. *)
Lemma X11_links_witness :
  exists r res' doc,
    visit_answers (trace_of visit_page) = [r] /\
    visits (trace_of visit_page) = [(res', doc)] /\
    fst (fst visit_page) =
      (if snd r then
         match doc with
         | Some d =>
             flat_map (harvest_one lib (url "/p"))
               (anchorHrefs lib (doc_node d))
         | None => fst r
         end
       else fst r) /\
    visiteds (trace_of visit_page) = [(url "/p", fst (fst visit_page))] /\
    (In (newCrawlErrorMessage "No goquery document to process links."
           CekProcessLinks (Some (url "/p"))) (errors (trace_of visit_page))
     <-> snd r = true /\ doc = None).
Proof.
  assert (H : visitUrl fetching logFunc lib (ok html "/p") (fresh [])
              = (fst (fst visit_page), state_of visit_page,
                 trace_of visit_page))
    by by_running.
  exact (X11_links_reported_by_a_visit _ _ _ _ _ H).
Defined.

(** X12, an instance: the stop signal becomes ready during the first of
    two commands, and the second is abandoned. *)
Lemma X12_batch_order_witness :
  stop_ready (state_of batch_stopped) = true /\
  exists k, (0 < k)%nat /\
    popped (trace_of batch_stopped) = firstn k (map cmd_u two_commands).
Proof.
  assert (H : processBatch fetching logFunc lib isRobotsTxtUrl two_commands
                (machine worker0
                   [(inl (ok html "/a"), 5%N); (inl (ok html "/b"), 5%N)]
                   (Some 3) [])
              = (fst (fst batch_stopped), state_of batch_stopped,
                 trace_of batch_stopped))
    by by_running.
  assert (Hph : fst (fst batch_stopped) = Terminated) by by_running.
  exact (proj2 (X12_batch_is_processed_in_order _ _ _ _ _ _ H) Hph).
Defined.

(** X13, an instance: the same batch. *)
Lemma X13_work_results_witness :
  (List.length (pushes (trace_of batch_stopped))
   <= List.length two_commands)%nat /\
  Forall (fun r => wr_host r = "h" /\ wr_idleDeath r = false /\
                   exists cmd, In cmd two_commands /\
                               wr_u r = Some (cmd_u cmd))
    (pushes (trace_of batch_stopped)).
Proof.
  assert (H : processBatch fetching logFunc lib isRobotsTxtUrl two_commands
                (machine worker0
                   [(inl (ok html "/a"), 5%N); (inl (ok html "/b"), 5%N)]
                   (Some 3) [])
              = (fst (fst batch_stopped), state_of batch_stopped,
                 trace_of batch_stopped))
    by by_running.
  exact (X13_work_results_of_a_batch _ _ _ _ _ _ H).
Defined.

(** X14, an instance: the stop signal is ready from the start. *)
Lemma X14_run_witness :
  ((exists t, stopAt stop_only = Some t /\ t <= clock (state_of stop_exit))
   \/ 0 < idleTTL (wk stop_only)) /\
  wg_dones (trace_of (take_stop_signal fetching stop_only)
            ++ trace_of stop_exit) = 1%nat /\
  exists tr1,
    trace_of (take_stop_signal fetching stop_only) ++ trace_of stop_exit
    = tr1 ++ [EvLog LogInfo "worker done.\n" []; EvWgDone].
Proof.
  assert (Hpass : run_pass fetching logFunc lib isRobotsTxtUrl stop_only
                    CaseStop Terminated
                    (state_of (take_stop_signal fetching stop_only))
                    (trace_of (take_stop_signal fetching stop_only))).
  { eapply run_pass_intro;
      [ by_running
      | eapply take_stop; [by_running | by_running | vm_compute; discriminate]
      | by_running
      | by_running ]. }
  pose proof (passes_more
                (passes_none fetching logFunc lib isRobotsTxtUrl stop_only)
                Hpass) as Hpasses.
  rewrite app_nil_l in Hpasses.
  assert (Hexit : run_exit (list string) logFunc
                    (state_of (take_stop_signal fetching stop_only))
                  = (tt, state_of stop_exit, trace_of stop_exit))
    by by_running.
  exact (X14_run_returns_on_stop_or_idle
           (run_return Hpasses Hexit eq_refl)).
Defined.

(** X15, an instance: nothing is sent to a worker whose idle timeout is
    five seconds. *)
Lemma X15_idle_witness :
  pushes (trace_of (take_idle_timeout fetching idle_only)) =
    [mkWorkerResponse "h" false None [] true] /\
  fetches (trace_of (take_idle_timeout fetching idle_only)) = [] /\
  fst (fst (take_idle_timeout fetching idle_only)) = Terminated /\
  0 < idleTTL (wk idle_only).
Proof.
  assert (Hpass : run_pass fetching logFunc lib isRobotsTxtUrl idle_only
                    CaseIdle
                    (fst (fst (take_idle_timeout fetching idle_only)))
                    (state_of (take_idle_timeout fetching idle_only))
                    (trace_of (take_idle_timeout fetching idle_only))).
  { eapply run_pass_intro;
      [ by_running
      | eapply take_idle; [by_running | by_running | vm_compute; discriminate]
      | by_running
      | by_running ]. }
  assert (Hnil : isRobotsTxtUrl None = false) by reflexivity.
  exact (X15_idle_timeout_pushes_one_result Hpass Hnil).
Defined.
